(** * Event sequence RNN model: batched beam-search generation

    A shallow embedding of [magenta/models/shared/events_rnn_model.py].

    Python objects that the code mutates in place (the event sequences) live
    in an explicit store and are handled through references, so that aliasing
    and [copy.deepcopy] are visible.  Exceptions are results of an error
    monad over that store.  numpy arrays are lists (a 2-D array is the list of
    its rows), Python integers that only count things are [nat], the two
    integers that enter the modulo arithmetic of the beam search are [Z], and
    float64 scores are idealised as real numbers. *)

From Stdlib Require Import Reals Lra ZArith Lia String.
From stdpp Require Import base list numbers sorting.

(** ** Exceptions *)

Inductive exn :=
| EventSequenceRnnModelException (msg : string)
| AssertionError
| IndexError
| TypeError
| ValueError
| ZeroDivisionError.

(** The two messages of [_generate_events]. *)
Definition empty_primer_msg : string :=
  "primer sequence must have non-zero length".
Definition primer_too_long_msg : string :=
  "primer sequence must be shorter than `num_steps`".

(** [heapq.nlargest] and [sorted] compare keys; on floats the comparison is
    [<], here the decision procedure of the reals. *)
Definition Rltb (a b : R) : bool := if Rlt_dec a b then true else false.

(** ** [heapq.nlargest]

    The standard library documents [heapq.nlargest(n, iterable, key)] as
    equivalent to [sorted(iterable, key=key, reverse=True)[:n]], and [sorted]
    as stable, also under [reverse=True]: items with equal keys keep the order
    they have in [iterable].  The implementation decorates every item with
    its key, and so does this model; the stable sort is an insertion sort from
    the right, which puts an item before the first one whose key is not
    larger than its own. *)

Fixpoint insert_desc {A K} (klt : K → K → bool) (x : K * A)
    (l : list (K * A)) : list (K * A) :=
  match l with
  | [] => [x]
  | y :: l' => if klt x.1 y.1 then y :: insert_desc klt x l' else x :: l
  end.

Definition sorted_reverse {A K} (klt : K → K → bool) (l : list (K * A))
  : list (K * A) :=
  foldr (insert_desc klt) [] l.

(** The order in which the stable descending sort leaves decorated items
    [(key, position)]: larger keys first, and among equal keys the earlier
    position first. *)
Definition before (x y : R * nat) : Prop :=
  (y.1 < x.1)%R ∨ (x.1 = y.1 ∧ x.2 < y.2).

Section Model.

(** Domain events, one input vector of the network, one row of the RNN state
    matrix, and the state of the sampler ([np.random]) that the
    encoder/decoder draws from. *)
Context {event input_vec state_row rng : Type}.

(** A model input is the list of the input vectors of the time steps fed to
    the network; [inputs] is "a Python list of model inputs". *)
Definition model_input : Type := list input_vec.

(** The softmax tensor of one sequence: time steps, then classes. *)
Definition softmax_row : Type := list (list R).

(** An event sequence object is named by its address in the store. *)
Definition ref : Type := nat.

(** ** Collaborators *)

(** The live TensorFlow session with the generation graph: what
    [session.run] returns for the initial state and for one step, and
    whether the graph has a temperature placeholder. *)
Record Session := {
  graph_temperature : bool;
  run_initial_state : list state_row;
  run_step : list model_input → list state_row → option R →
             list state_row * list softmax_row
}.

(** The encoder/decoder: the model input of a sequence ([full_length] or
    not), and the sampling of the next event from a distribution, which
    returns the chosen class, the event it stands for and the new sampler
    state. *)
Record EventSequenceEncoderDecoder := {
  events_to_input : list event → bool → model_input;
  choose_event : rng → list event → list R → nat * event * rng
}.

Record HParams := {
  dropout_keep_prob : R;
  batch_size : nat
}.

Record EventSequenceRnnConfig := {
  details : string;
  encoder_decoder : EventSequenceEncoderDecoder;
  hparams : HParams
}.

Record EventSequenceRnnModel := {
  _config : EventSequenceRnnConfig
}.

(** What the code finds around it: the session that the base class installs
    as [self._session], and what [np.empty] leaves in a fresh array. *)
Class Runtime := {
  session : Session;
  uninit_row : state_row;
  uninit_float : R
}.

Context {RT : Runtime}.

(** ** The store and the monad *)

Inductive session_call :=
| FetchInitialState
| FetchStep (inputs : list model_input) (initial_state : list state_row)
            (temperature : option R).

Record world := World {
  heap : list (list event);
  sampler : rng;
  session_log : list session_call
}.

Inductive outcome (A : Type) :=
| Return (a : A) (w : world)
| Raise (e : exn) (w : world).
Arguments Return {A} a w.
Arguments Raise {A} e w.

Definition M (A : Type) : Type := world → outcome A.

#[global] Instance M_ret : MRet M := λ A a w, Return a w.
#[global] Instance M_bind : MBind M := λ A B f m w,
  match m w with
  | Return a w' => f a w'
  | Raise e w' => Raise e w'
  end.

Definition raise {A} (e : exn) : M A := λ w, Raise e w.

(** Reading, extending and copying sequence objects.  Every reference the
    program holds was handed out by an allocation, so the default of
    [heap_read] is never seen. *)
Definition heap_read (r : ref) : M (list event) :=
  λ w, Return (default [] (heap w !! r)) w.

Definition heap_append (r : ref) (e : event) : M unit :=
  λ w, Return tt (World (alter (λ s, s ++ [e]) r (heap w))
                        (sampler w) (session_log w)).

Definition deepcopy (r : ref) : M ref :=
  λ w, Return (length (heap w))
              (World (heap w ++ [default [] (heap w !! r)])
                     (sampler w) (session_log w)).

(** ** Python and numpy operations the code uses *)

Definition py_assert (b : bool) : M unit :=
  if b then mret tt else raise AssertionError.

Definition py_getitem {A} (l : list A) (i : nat) : M A :=
  match l !! i with
  | Some x => mret x
  | None => raise IndexError
  end.

(** [l[-1]] *)
Definition py_last {A} (l : list A) : M A :=
  match list.last l with
  | Some x => mret x
  | None => raise IndexError
  end.

(** [[l[i] for i in idx]] and numpy's [a[idx]], [a[idx, :]]. *)
Definition py_getitems {A} (l : list A) (idx : list nat) : M (list A) :=
  mapM (py_getitem l) idx.

Definition py_range (a b : nat) : list nat := seq a (b - a).

(** [l * n] on a list, and [np.tile] along the first axis. *)
Definition py_list_mul {A} (l : list A) (n : nat) : list A :=
  mjoin (replicate n l).

Definition np_tile {A} (a : list A) (reps : nat) : list A :=
  mjoin (replicate reps a).

(** Integer [/] of Python 2 on natural numbers. *)
Definition py_floordiv (a b : nat) : M nat :=
  if b =? 0 then raise ZeroDivisionError else mret (a / b).

(** Broadcasting a value of leading dimension [length v] to [n]. *)
Definition np_broadcast {A} (n : nat) (v : list A) : M (list A) :=
  if length v =? n then mret v
  else match v with
       | [x] => mret (replicate n x)
       | _ => raise ValueError
       end.

(** [a[idx] = v] *)
Definition np_setitems {A} (a : list A) (idx : list nat) (v : list A)
  : M (list A) :=
  if forallb (λ i, i <? length a) idx then
    vs ← np_broadcast (length idx) v;
    mret (foldl (λ acc '(i, x), <[i:=x]> acc) a (zip idx vs))
  else raise IndexError.

(** [a += b] on 1-D float arrays. *)
Definition np_iadd (a b : list R) : M (list R) :=
  bs ← np_broadcast (length a) b;
  mret (zip_with Rplus a bs).

(** [softmax[range(n), -1, indices]] *)
Definition np_chosen (softmax : list softmax_row) (n : nat)
    (indices : list nat) : M (list R) :=
  idx ← np_broadcast n indices;
  mapM (λ '(i, c),
          row ← py_getitem softmax i;
          dist ← py_last row;
          py_getitem dist c)
       (zip (py_range 0 n) idx).

Definition session_run_initial_state : M (list state_row) :=
  λ w, Return (run_initial_state session)
              (World (heap w) (sampler w)
                     (session_log w ++ [FetchInitialState])).

Definition session_run_step (inputs : list model_input)
    (initial_state : list state_row) (temperature : option R)
  : M (list state_row * list softmax_row) :=
  λ w, Return (run_step session inputs initial_state temperature)
              (World (heap w) (sampler w)
                     (session_log w ++
                        [FetchStep inputs initial_state temperature])).

(** ** The encoder/decoder's two batch operations *)

(** Modelled from the spec: [extend_event_sequences] of the encoder/decoder
    is not in this file.  It "mutates each sequence in place by appending one
    event chosen from its corresponding distribution" and "returns which
    index was chosen per sequence"; the distribution of a sequence is the
    last time step of its softmax. *)
Fixpoint extend_event_sequences (ed : EventSequenceEncoderDecoder)
    (event_sequences : list ref) (softmax : list softmax_row)
  : M (list nat) :=
  match event_sequences with
  | [] => mret []
  | r :: rest =>
      row ← py_getitem softmax 0;
      dist ← py_last row;
      events ← heap_read r;
      '(c, e) ← (λ w, let '(c, e, g) := choose_event ed (sampler w) events dist in
                      Return (c, e) (World (heap w) g (session_log w)));
      _ ← heap_append r e;
      cs ← extend_event_sequences ed rest (tail softmax);
      mret (c :: cs)
  end.

(** Modelled from the spec: [get_inputs_batch] of the encoder/decoder is not
    in this file.  It "produces one model-input row per sequence". *)
Definition get_inputs_batch (ed : EventSequenceEncoderDecoder)
    (event_sequences : list ref) (full_length : bool)
  : M (list model_input) :=
  mapM (λ r, events ← heap_read r; mret (events_to_input ed events full_length))
       event_sequences.

(** ** [EventSequenceRnnModel] *)

Definition __init__ (config : EventSequenceRnnConfig) : EventSequenceRnnModel :=
  {| _config :=
       {| details := details config;
          encoder_decoder := encoder_decoder config;
          hparams := {| dropout_keep_prob := 1; batch_size := 1 |} |} |}.

Definition _generate_step_for_batch (self : EventSequenceRnnModel)
    (event_sequences : list ref) (inputs : list model_input)
    (initial_state : list state_row) (temperature : R)
  : M (list state_row * list R) :=
  _ ← py_assert (length event_sequences =? batch_size (hparams (_config self)));
  let feed_temperature :=
    if graph_temperature session then Some temperature else None in
  '(final_state, softmax) ← session_run_step inputs initial_state feed_temperature;
  indices ← extend_event_sequences (encoder_decoder (_config self))
                                   event_sequences softmax;
  chosen ← np_chosen softmax (length event_sequences) indices;
  mret (final_state, chosen).

(** The [for] loop over the full batches (lines 129-140); it returns the
    final [offset] with the two output arrays. *)
Fixpoint full_batches (self : EventSequenceRnnModel) (n : nat)
    (event_sequences : list ref) (inputs : list model_input)
    (initial_state : list state_row) (temperature : R)
    (offset : nat) (final_state : list state_row) (softmax : list R)
  : M (nat * list state_row * list R) :=
  match n with
  | 0 => mret (offset, final_state, softmax)
  | S n' =>
      let batch_size := batch_size (hparams (_config self)) in
      let batch_indices := py_range offset (offset + batch_size) in
      batch_sequences ← py_getitems event_sequences batch_indices;
      batch_inputs ← py_getitems inputs batch_indices;
      batch_state ← py_getitems initial_state batch_indices;
      '(batch_final_state, batch_softmax) ←
        _generate_step_for_batch self batch_sequences batch_inputs
                                 batch_state temperature;
      final_state ← np_setitems final_state batch_indices batch_final_state;
      softmax ← np_setitems softmax batch_indices batch_softmax;
      full_batches self n' event_sequences inputs initial_state temperature
                   (offset + batch_size) final_state softmax
  end.

(** The non-full batch (lines 142-157).  The arguments of the call are
    evaluated from left to right: the padded sequences (the deep copies are
    allocated), then the padded inputs, where [inputs[-1] * pad_size] repeats
    the time steps of the last input instead of the input itself, then the
    padded state, where [inputs[-1, :]] indexes a Python list with a tuple and
    raises [TypeError].  Nothing after that is reached. *)
Definition pad_batch (self : EventSequenceRnnModel)
    (event_sequences : list ref) (inputs : list model_input)
    (initial_state : list state_row) (temperature : R)
    (offset : nat) (final_state : list state_row) (softmax : list R)
  : M (list state_row * list R) :=
  let batch_size := batch_size (hparams (_config self)) in
  let num_extra := length event_sequences - offset in
  let pad_size := batch_size - num_extra in
  let batch_indices := py_range offset (length event_sequences) in
  real_sequences ← py_getitems event_sequences batch_indices;
  copies ← mapM (λ _ : nat, last_sequence ← py_last event_sequences;
                            deepcopy last_sequence)
                (py_range 0 pad_size);
  let padded_sequences := real_sequences ++ copies in
  real_inputs ← py_getitems inputs batch_indices;
  last_input ← py_last inputs;
  let padded_inputs : list (model_input + input_vec) :=
    (inl <$> real_inputs) ++ (inr <$> py_list_mul last_input pad_size) in
  real_state ← py_getitems initial_state batch_indices;
  raise TypeError.

Definition _generate_step (self : EventSequenceRnnModel)
    (event_sequences : list ref) (inputs : list model_input)
    (initial_state : list state_row) (temperature : R)
  : M (list state_row * list R) :=
  let batch_size := batch_size (hparams (_config self)) in
  num_full_batches ← py_floordiv (length event_sequences) batch_size;
  let final_state := replicate (length event_sequences) uninit_row in
  let softmax := replicate (length event_sequences) uninit_float in
  '(offset, final_state, softmax) ←
    full_batches self num_full_batches event_sequences inputs initial_state
                 temperature 0 final_state softmax;
  if offset <? length event_sequences then
    pad_batch self event_sequences inputs initial_state temperature
              offset final_state softmax
  else mret (final_state, softmax).

(** [heapq.nlargest(n, iterable, key=key)].  With [n = 0] nothing is
    consumed and no key is computed. *)
Definition nlargest {A K} (klt : K → K → bool) (n : nat) (iterable : list A)
    (key : A → M K) : M (list A) :=
  if n =? 0 then mret []
  else
    decorated ← mapM (λ x, k ← key x; mret (k, x)) iterable;
    mret ((take n (sorted_reverse klt decorated)).*2).

(** The [for] loop of [_generate_branches] (lines 196-199). *)
Fixpoint branch_steps (self : EventSequenceRnnModel) (n : nat)
    (all_event_sequences : list ref) (all_inputs : list model_input)
    (all_final_state : list state_row) (all_loglik : list R)
    (temperature : R) : M (list state_row * list R) :=
  match n with
  | 0 => mret (all_final_state, all_loglik)
  | S n' =>
      '(all_final_state, all_softmax) ←
        _generate_step self all_event_sequences all_inputs all_final_state
                       temperature;
      all_loglik ← np_iadd all_loglik (ln <$> all_softmax);
      branch_steps self n' all_event_sequences all_inputs all_final_state
                   all_loglik temperature
  end.

Definition _generate_branches (self : EventSequenceRnnModel)
    (event_sequences : list ref) (loglik : list R) (branch_factor : nat)
    (num_steps : Z) (inputs : list model_input)
    (initial_state : list state_row) (temperature : R)
  : M (list ref * list state_row * list R) :=
  all_event_sequences ←
    mapM deepcopy (py_list_mul event_sequences branch_factor);
  let all_inputs := py_list_mul inputs branch_factor in
  let all_final_state := np_tile initial_state branch_factor in
  let all_loglik := np_tile loglik branch_factor in
  '(all_final_state, all_loglik) ←
    branch_steps self (Z.to_nat num_steps) all_event_sequences all_inputs
                 all_final_state all_loglik temperature;
  mret (all_event_sequences, all_final_state, all_loglik).

Definition _prune_branches (self : EventSequenceRnnModel)
    (event_sequences : list ref) (final_state : list state_row)
    (loglik : list R) (k : nat)
  : M (list ref * list state_row * list R) :=
  indices ← nlargest Rltb k (py_range 0 (length event_sequences))
                     (λ i, py_getitem loglik i);
  event_sequences ← py_getitems event_sequences indices;
  final_state ← py_getitems final_state indices;
  loglik ← py_getitems loglik indices;
  mret (event_sequences, final_state, loglik).

(** Python's [%] and [/] on integers: both floor, and raise on a zero
    divisor. *)
Definition py_mod (a b : Z) : M Z :=
  if (b =? 0)%Z then raise ZeroDivisionError else mret (a mod b)%Z.

Definition py_div (a b : Z) : M Z :=
  if (b =? 0)%Z then raise ZeroDivisionError else mret (a / b)%Z.

(** The number of steps of the first branching and the number of later
    iterations (lines 278 and 288-289). *)
Definition first_iteration_num_steps (num_steps steps_per_iteration : Z) : M Z :=
  m ← py_mod (num_steps - 1) steps_per_iteration;
  mret (m + 1)%Z.

Definition num_iterations (num_steps first steps_per_iteration : Z) : M Z :=
  py_div (num_steps - first) steps_per_iteration.

(** Lines 272-283: the beam is filled, the log-likelihoods are zero, the
    first step count, the inputs of the full primer and the tiled initial
    state are computed. *)
Definition beam_init (self : EventSequenceRnnModel) (events : ref)
    (num_steps : Z) (beam_size : nat) (steps_per_iteration : Z)
  : M (list ref * list R * Z * list model_input * list state_row) :=
  event_sequences ← mapM (λ _ : nat, deepcopy events) (py_range 0 beam_size);
  let loglik := replicate beam_size 0%R in
  first ← first_iteration_num_steps num_steps steps_per_iteration;
  inputs ← get_inputs_batch (encoder_decoder (_config self))
                            event_sequences true;
  state ← session_run_initial_state;
  let initial_state := np_tile state beam_size in
  mret (event_sequences, loglik, first, inputs, initial_state).

(** The [for] loop of [_beam_search] (lines 291-297). *)
Fixpoint beam_iterations (self : EventSequenceRnnModel) (n : nat)
    (event_sequences : list ref) (final_state : list state_row)
    (loglik : list R) (temperature : R) (beam_size branch_factor : nat)
    (steps_per_iteration : Z)
  : M (list ref * list state_row * list R) :=
  match n with
  | 0 => mret (event_sequences, final_state, loglik)
  | S n' =>
      '(event_sequences, final_state, loglik) ←
        _prune_branches self event_sequences final_state loglik beam_size;
      inputs ← get_inputs_batch (encoder_decoder (_config self))
                                event_sequences false;
      '(event_sequences, final_state, loglik) ←
        _generate_branches self event_sequences loglik branch_factor
                           steps_per_iteration inputs final_state temperature;
      beam_iterations self n' event_sequences final_state loglik temperature
                      beam_size branch_factor steps_per_iteration
  end.

(** Lines 299-306: the beam is pruned to one sequence, its log-likelihood
    [loglik[0]] is logged and [event_sequences[0]] is returned. *)
Definition beam_finalize (self : EventSequenceRnnModel)
    (event_sequences : list ref) (final_state : list state_row)
    (loglik : list R) : M ref :=
  '(event_sequences, final_state, loglik) ←
    _prune_branches self event_sequences final_state loglik 1;
  _ ← py_getitem loglik 0;
  py_getitem event_sequences 0.

Definition _beam_search (self : EventSequenceRnnModel) (events : ref)
    (num_steps : Z) (temperature : R) (beam_size branch_factor : nat)
    (steps_per_iteration : Z) : M ref :=
  '(event_sequences, loglik, first, inputs, initial_state) ←
    beam_init self events num_steps beam_size steps_per_iteration;
  '(event_sequences, final_state, loglik) ←
    _generate_branches self event_sequences loglik branch_factor first
                       inputs initial_state temperature;
  iterations ← num_iterations num_steps first steps_per_iteration;
  '(event_sequences, final_state, loglik) ←
    beam_iterations self (Z.to_nat iterations) event_sequences final_state
                    loglik temperature beam_size branch_factor
                    steps_per_iteration;
  beam_finalize self event_sequences final_state loglik.

Definition _generate_events (self : EventSequenceRnnModel) (num_steps : Z)
    (primer_events : ref) (temperature : R) (beam_size branch_factor : nat)
    (steps_per_iteration : Z) : M ref :=
  primer ← heap_read primer_events;
  if length primer =? 0 then
    raise (EventSequenceRnnModelException empty_primer_msg)
  else if (num_steps <=? Z.of_nat (length primer))%Z then
    raise (EventSequenceRnnModelException primer_too_long_msg)
  else
    let events := primer_events in
    if (Z.of_nat (length primer) <? num_steps)%Z then
      _beam_search self events (num_steps - Z.of_nat (length primer))
                   temperature beam_size branch_factor steps_per_iteration
    else mret events.

(** ** Contracts and relations that the statements use *)

(** The contract of the collaborators: the initial state that the session
    returns has one row per sequence of a batch; a step returns as many state
    rows and as many softmax rows as it was given state rows; every softmax
    row has a last time step, and the class that the decoder chooses from it
    is one of its classes. *)
Definition collaborators_ok (self : EventSequenceRnnModel) : Prop :=
  length (run_initial_state session) = batch_size (hparams (_config self)) ∧
  ∀ inputs initial_state temperature,
    let '(final_state, softmax) :=
      run_step session inputs initial_state temperature in
    length final_state = length initial_state ∧
    length softmax = length initial_state ∧
    Forall (λ row, ∃ dist, list.last row = Some dist ∧
              ∀ g events,
                (choose_event (encoder_decoder (_config self)) g events dist).1.1
                < length dist)
           softmax.

(** From store [h] to store [h']: no object was created, each of the
    sequences [rs] got [n] more events at its end, and every other sequence
    is as it was. *)
Definition extended (n : nat) (rs : list ref) (h h' : list (list event))
  : Prop :=
  length h' = length h ∧
  ∀ r s, h !! r = Some s →
    if decide (r ∈ rs)
    then ∃ suffix, length suffix = n ∧ h' !! r = Some (s ++ suffix)
    else h' !! r = Some s.

(** A population of distinct sequences in store [h], each of them the primer
    followed by [t] generated events. *)
Definition population_of (primer : list event) (t : nat)
    (h : list (list event)) (rs : list ref) : Prop :=
  NoDup rs ∧
  ∀ r, r ∈ rs → ∃ suffix, h !! r = Some (primer ++ suffix) ∧ length suffix = t.

(** The sum of a list of reals. *)
Definition Rsum (l : list R) : R := foldr Rplus 0%R l.

(** A run of consecutive calls of [_generate_step] on the same sequences and
    inputs, each fed the state of the one before, with the vector of chosen
    probabilities that each call returned. *)
Inductive generated_steps (self : EventSequenceRnnModel)
    (event_sequences : list ref) (inputs : list model_input) (temperature : R)
  : list state_row → world → list (list R) → list state_row → world → Prop :=
| generated_nil state w :
    generated_steps self event_sequences inputs temperature state w [] state w
| generated_cons state w state1 softmax w1 softmaxes state' w' :
    _generate_step self event_sequences inputs state temperature w
    = Return (state1, softmax) w1 →
    generated_steps self event_sequences inputs temperature
                    state1 w1 softmaxes state' w' →
    generated_steps self event_sequences inputs temperature
                    state w (softmax :: softmaxes) state' w'.

(** ** Relations that the further properties use *)

(** Every exception that [m] can end in satisfies [P]. *)
Definition raises_only {A} (P : exn → Prop) (m : M A) : Prop :=
  ∀ w e w', m w = Raise e w' → P e.

(** The exceptions of Python itself, as opposed to the model's own. *)
Definition builtin_exception (e : exn) : Prop :=
  match e with
  | EventSequenceRnnModelException _ => False
  | _ => True
  end.

(** The temperature that [_generate_step_for_batch] feeds. *)
Definition fed_temperature (temperature : R) : option R :=
  if graph_temperature session then Some temperature else None.

(** The session call that [_generate_step] makes for the full batch that
    starts at [offset], and the state rows that the session returns for it. *)
Definition batch_call (self : EventSequenceRnnModel)
    (inputs : list model_input) (initial_state : list state_row)
    (temperature : R) (offset : nat) : session_call :=
  let b := batch_size (hparams (_config self)) in
  FetchStep (take b (drop offset inputs)) (take b (drop offset initial_state))
            (fed_temperature temperature).

Definition batch_states (self : EventSequenceRnnModel)
    (inputs : list model_input) (initial_state : list state_row)
    (temperature : R) (offset : nat) : list state_row :=
  let b := batch_size (hparams (_config self)) in
  (run_step session (take b (drop offset inputs))
            (take b (drop offset initial_state))
            (fed_temperature temperature)).1.

(** From store [h] to store [h']: no object was created and every sequence
    [r] got [count r] more events at its end. *)
Definition extended_by (count : ref → nat) (h h' : list (list event)) : Prop :=
  length h' = length h ∧
  ∀ r s, h !! r = Some s →
    ∃ suffix, length suffix = count r ∧ h' !! r = Some (s ++ suffix).

(** How often the object [r] is listed in [rs]. *)
Definition occurrences (rs : list ref) (r : ref) : nat :=
  length (filter (λ x, x = r) rs).

End Model.

Arguments Return {event input_vec state_row rng A} a w.
Arguments Raise {event input_vec state_row rng A} e w.

(** ** A small deterministic model for closed examples

    Events are numbers, the network state is trivial, every distribution is
    [[1/4; 3/4]] and the decoder always takes class 1 and appends the current
    length of the sequence as the next event. *)

Definition mock_session : @Session unit unit :=
  {| graph_temperature := true;
     run_initial_state := [tt];
     run_step := λ _ initial_state _,
       (initial_state, (λ _, [[(1/4)%R; (3/4)%R]]) <$> initial_state) |}.

Definition mock_encoder_decoder : @EventSequenceEncoderDecoder nat unit unit :=
  {| events_to_input := λ events full_length,
       if full_length then (λ _, tt) <$> events else [tt];
     choose_event := λ g events _, (1, length events, g) |}.

#[global] Instance mock_runtime : @Runtime unit unit :=
  {| session := mock_session; uninit_row := tt; uninit_float := 0%R |}.

Definition mock_config (batch : nat) : EventSequenceRnnConfig :=
  {| details := "mock";
     encoder_decoder := mock_encoder_decoder;
     hparams := {| dropout_keep_prob := (1/2)%R; batch_size := batch |} |}.

(** A store that holds the one primer [[7]] at address 0. *)
Definition mock_world : @world nat unit unit unit :=
  World [[7]] tt [].

(** The same model with a graph built for batches of two. *)
Definition mock_session_pair : @Session unit unit :=
  {| graph_temperature := true;
     run_initial_state := [tt; tt];
     run_step := run_step mock_session |}.

Definition mock_runtime_pair : @Runtime unit unit :=
  {| session := mock_session_pair; uninit_row := tt; uninit_float := 0%R |}.

(** A store with four sequences. *)
Definition mock_world_four : @world nat unit unit unit :=
  World [[7]; [8]; [9]; [10]] tt [].

(** * Properties *)

Section Theorems.

Context {event input_vec state_row rng : Type}.
Context {RT : @Runtime input_vec state_row}.

Implicit Types (self : @EventSequenceRnnModel event input_vec rng).
Implicit Types (w : @world event input_vec state_row rng).

(** ** Running the monad *)

Lemma bind_Return {A B} (m : M A) (k : A → M B) w a w1 :
  m w = Return a w1 → (m ≫= k) w = k a w1.
Proof. unfold mbind, M_bind. by intros ->. Qed.

Lemma bind_Raise {A B} (m : M A) (k : A → M B) w e w1 :
  m w = Raise e w1 → (m ≫= k) w = Raise e w1.
Proof. unfold mbind, M_bind. by intros ->. Qed.

Lemma bind_inv {A B} (m : M A) (k : A → M B) w b w2 :
  (m ≫= k) w = Return b w2 →
  ∃ a w1, m w = Return a w1 ∧ k a w1 = Return b w2.
Proof.
  unfold mbind, M_bind. destruct (m w) as [a w1|e w1]; [eauto | done].
Qed.

Lemma ret_inv {A} (a b : A) w w' :
  mret (M := M) a w = Return b w' → a = b ∧ w = w'.
Proof. unfold mret, M_ret. by intros [= -> ->]. Qed.

(** ** Pure helpers: indexing never touches the store *)

Lemma py_getitem_Some {A} (l : list A) i x w :
  l !! i = Some x → py_getitem l i w = Return x w.
Proof. unfold py_getitem. by intros ->. Qed.

Lemma py_getitem_inv {A} (l : list A) i x w w' :
  py_getitem l i w = Return x w' → l !! i = Some x ∧ w' = w.
Proof.
  unfold py_getitem. destruct (l !! i); [|done].
  intros [-> ->]%ret_inv. done.
Qed.

Lemma py_getitems_inv {A} (l : list A) idx xs w w' :
  py_getitems l idx w = Return xs w' →
  Forall2 (λ i x, l !! i = Some x) idx xs ∧ w' = w.
Proof.
  unfold py_getitems. revert xs w w'.
  induction idx as [|i idx IH]; intros xs w w' H; simpl in H.
  - apply ret_inv in H as [<- <-]. by split; [constructor|].
  - apply bind_inv in H as (x & w1 & Hx & H).
    apply py_getitem_inv in Hx as [Hx ->].
    apply bind_inv in H as (xs' & w2 & Hxs & H).
    apply IH in Hxs as [Hxs ->].
    apply ret_inv in H as [<- <-]. split; [by constructor|done].
Qed.

Lemma py_getitems_Forall2 {A} (l : list A) idx xs w :
  Forall2 (λ i x, l !! i = Some x) idx xs →
  py_getitems l idx w = Return xs w.
Proof.
  unfold py_getitems. induction 1 as [|i x idx xs Hx _ IH]; simpl; [done|].
  erewrite bind_Return; [|by apply py_getitem_Some].
  erewrite bind_Return; [|exact IH]. done.
Qed.

Lemma py_getitems_seq {A} (l : list A) a n w :
  a + n ≤ length l →
  py_getitems l (seq a n) w = Return (take n (drop a l)) w.
Proof.
  intros Hle. apply py_getitems_Forall2.
  apply Forall2_same_length_lookup. split.
  - rewrite length_seq, length_take, length_drop. lia.
  - intros i j x Hj Hx. apply lookup_seq in Hj as [-> Hi].
    rewrite lookup_take_lt, lookup_drop in Hx by done. done.
Qed.

(** ** The single-step batching operation on an empty population *)

(** C8: when there are no candidates and the batch size is positive,
    [_generate_step] returns an empty state matrix and an empty vector of
    chosen probabilities, and the world, with its log of session calls, is
    the one it started from: the step function was not invoked. *)
Theorem generate_step_no_candidates self inputs initial_state temperature w :
  0 < batch_size (hparams (_config self)) →
  _generate_step self [] inputs initial_state temperature w
  = Return ([], []) w.
Proof.
  intros Hb. unfold _generate_step, py_floordiv.
  destruct (batch_size _ =? 0) eqn:E; [apply Nat.eqb_eq in E; lia|].
  cbn. by rewrite Nat.Div0.div_0_l.
Qed.

(** ** Validation of the request *)

(** C5: an empty primer is rejected with the empty-primer error whatever the
    target length is (that check comes first), a non-empty primer that is not
    shorter than the target length is rejected with the too-long error, the
    two errors differ, and in both cases the world is untouched: no session
    call was made and no sequence was created or extended. *)
Theorem generate_events_validation self num_steps primer_events temperature
    beam_size branch_factor steps_per_iteration w :
  let primer := default [] (heap w !! primer_events) in
  let run := _generate_events self num_steps primer_events temperature
               beam_size branch_factor steps_per_iteration w in
  (length primer = 0 →
     run = Raise (EventSequenceRnnModelException empty_primer_msg) w) ∧
  (length primer ≠ 0 → (num_steps ≤ Z.of_nat (length primer))%Z →
     run = Raise (EventSequenceRnnModelException primer_too_long_msg) w) ∧
  empty_primer_msg ≠ primer_too_long_msg.
Proof.
  intros primer run. subst run. unfold _generate_events.
  erewrite bind_Return; [|reflexivity]. fold primer.
  split; [|split].
  - intros ->. done.
  - intros Hne Hle. destruct (length primer) as [|n] eqn:E; [done|].
    simpl Nat.eqb. cbv iota.
    destruct (Z.leb_spec num_steps (Z.of_nat (S n))); [done|lia].
  - done.
Qed.

(** ** The batch size and the padding branch *)

Lemma full_batches_offset self n event_sequences inputs initial_state
    temperature offset final_state softmax w offset' final_state' softmax' w' :
  full_batches self n event_sequences inputs initial_state temperature
               offset final_state softmax w
  = Return (offset', final_state', softmax') w' →
  offset' = offset + n * batch_size (hparams (_config self)).
Proof.
  revert offset final_state softmax w.
  induction n as [|n IH]; intros offset final_state softmax w H; simpl in H.
  - apply ret_inv in H as [[= <- <- <-] _]. lia.
  - apply bind_inv in H as (? & ? & _ & H).
    apply bind_inv in H as (? & ? & _ & H).
    apply bind_inv in H as (? & ? & _ & H).
    apply bind_inv in H as ([? ?] & ? & _ & H).
    apply bind_inv in H as (? & ? & _ & H).
    apply bind_inv in H as (? & ? & _ & H).
    apply IH in H. lia.
Qed.

Lemma pad_batch_never_returns self event_sequences inputs initial_state
    temperature offset final_state softmax w :
  ∃ e w', pad_batch self event_sequences inputs initial_state temperature
                    offset final_state softmax w = Raise e w'.
Proof.
  destruct (pad_batch _ _ _ _ _ _ _ _ w) as [r w'|e w'] eqn:H; [|by eauto].
  exfalso. unfold pad_batch in H.
  apply bind_inv in H as (? & ? & _ & H).
  apply bind_inv in H as (? & ? & _ & H).
  apply bind_inv in H as (? & ? & _ & H).
  apply bind_inv in H as (? & ? & _ & H).
  apply bind_inv in H as (? & ? & _ & H).
  discriminate H.
Qed.

(** Whenever the number of candidates is not a multiple of the batch size,
    [_generate_step] ends in an exception. *)
Lemma generate_step_partial_batch_raises self event_sequences inputs
    initial_state temperature w :
  length event_sequences mod batch_size (hparams (_config self)) ≠ 0 →
  ∃ e w', _generate_step self event_sequences inputs initial_state
                         temperature w = Raise e w'.
Proof.
  intros Hmod. unfold _generate_step, py_floordiv.
  set (b := batch_size _) in *. set (N := length event_sequences) in *.
  destruct (b =? 0) eqn:Eb; [by eexists _, _|].
  apply Nat.eqb_neq in Eb.
  erewrite bind_Return; [|reflexivity].
  destruct (full_batches self (N / b) event_sequences inputs initial_state
              temperature 0 (replicate N uninit_row)
              (replicate N uninit_float) w)
    as [[[offset fs] sm] w1|e w1] eqn:Hfull.
  - erewrite bind_Return; [|exact Hfull].
    apply full_batches_offset in Hfull. fold b in Hfull.
    assert (offset < N) as Hlt.
    { pose proof (Nat.div_mod_eq N b). nia. }
    apply Nat.ltb_lt in Hlt. cbv beta iota. rewrite Hlt.
    apply pad_batch_never_returns.
  - erewrite bind_Raise; [|exact Hfull]. by eexists _, _.
Qed.

(** C9: the constructor sets the batch size to 1; so every population size
    is a multiple of it, the loop over the full batches, whenever it
    completes, leaves [offset] equal to the population size, which makes the
    guard of the padding branch false, and [_generate_step] is the loop over
    the full batches alone. *)
Theorem init_batch_size_excludes_padding config :
  let self := __init__ config in
  batch_size (hparams (_config self)) = 1 ∧
  ∀ event_sequences inputs initial_state temperature w,
    let N := length event_sequences in
    let loop :=
      full_batches self N event_sequences inputs initial_state temperature
                   0 (replicate N uninit_row) (replicate N uninit_float) in
    N mod batch_size (hparams (_config self)) = 0 ∧
    (∀ offset final_state softmax w',
       loop w = Return (offset, final_state, softmax) w' →
       (offset <? N) = false) ∧
    _generate_step self event_sequences inputs initial_state temperature w
    = (loop ≫= λ '(_, final_state, softmax), mret (final_state, softmax)) w.
Proof.
  intros self. split; [done|].
  intros event_sequences inputs initial_state temperature w N loop.
  assert (∀ offset final_state softmax w',
            loop w = Return (offset, final_state, softmax) w' →
            (offset <? N) = false) as Hguard.
  { intros offset fs sm w' H. apply full_batches_offset in H.
    simpl in H. apply Nat.ltb_ge. lia. }
  split; [|split; [exact Hguard|]].
  - change (N mod 1 = 0). apply Nat.mod_1_r.
  - unfold _generate_step, py_floordiv. simpl batch_size. simpl Nat.eqb.
    cbv iota. erewrite bind_Return; [|reflexivity].
    rewrite Nat.div_1_r. fold N. fold self. fold loop.
    destruct (loop w) as [[[offset fs] sm] w1|e w1] eqn:Hloop.
    + erewrite !bind_Return by exact Hloop. cbv beta iota.
      by rewrite (Hguard _ _ _ _ eq_refl).
    + by erewrite !bind_Raise by exact Hloop.
Qed.

(** ** The stable descending sort *)

Lemma Rltb_lt a b : Rltb a b = true ↔ (a < b)%R.
Proof. unfold Rltb. destruct (Rlt_dec a b); split; (done || intros ?; lra). Qed.

Lemma before_trans x y z : before x y → before y z → before x z.
Proof. unfold before. intros [?|[? ?]] [?|[? ?]]; (left; lra) || (right; split; [lra|lia]). Qed.

Lemma insert_desc_perm {A} (x : R * A) l : insert_desc Rltb x l ≡ₚ x :: l.
Proof.
  induction l as [|y l IH]; simpl; [done|].
  destruct (Rltb x.1 y.1); [|done].
  rewrite IH. apply Permutation_swap.
Qed.

Lemma sorted_reverse_perm {A} (l : list (R * A)) : sorted_reverse Rltb l ≡ₚ l.
Proof.
  induction l as [|x l IH]; simpl; [done|].
  unfold sorted_reverse in *. simpl. by rewrite insert_desc_perm, IH.
Qed.

Lemma insert_desc_sorted (x : R * nat) l :
  Forall (λ y, x.2 < y.2) l →
  StronglySorted before l →
  StronglySorted before (insert_desc Rltb x l).
Proof.
  intros Hpos Hs. induction Hs as [|y l Hs IH Hy]; simpl.
  - repeat constructor.
  - apply Forall_cons in Hpos as [Hxy Hpos].
    destruct (Rltb x.1 y.1) eqn:E.
    + apply Rltb_lt in E. constructor; [by apply IH|].
      rewrite insert_desc_perm. constructor; [by left|done].
    + assert (before x y) as Hb.
      { destruct (Rlt_dec y.1 x.1) as [?|Hn]; [by left|].
        right. split; [|done].
        destruct (Rlt_dec x.1 y.1) as [Hlt|?]; [|lra].
        apply Rltb_lt in Hlt. congruence. }
      constructor; [by constructor|].
      constructor; [done|].
      eapply Forall_impl; [exact Hy|]. intros z Hz. by eapply before_trans.
Qed.

Lemma sorted_reverse_sorted (l : list (R * nat)) :
  StronglySorted lt l.*2 →
  StronglySorted before (sorted_reverse Rltb l).
Proof.
  induction l as [|x l IH]; simpl; intros Hs; [constructor|].
  apply StronglySorted_inv in Hs as [Hs Hx].
  apply insert_desc_sorted; [|by apply IH].
  fold (sorted_reverse Rltb l). rewrite sorted_reverse_perm.
  apply Forall_forall. intros y Hy.
  eapply (proj1 (Forall_forall _ _) Hx). by apply list_elem_of_fmap_2.
Qed.

Lemma StronglySorted_seq a n : StronglySorted lt (seq a n).
Proof.
  revert a. induction n as [|n IH]; intros a; simpl; constructor; [done|].
  apply Forall_forall. intros i [? ?]%elem_of_seq. lia.
Qed.

Lemma StronglySorted_lookup {A} (R : relation A) l p q x y :
  StronglySorted R l → p < q → l !! p = Some x → l !! q = Some y → R x y.
Proof.
  intros Hs Hpq Hp Hq. rewrite <-(take_drop q l) in Hs.
  eapply StronglySorted_app_1_elem_of; [exact Hs| |].
  - apply list_elem_of_lookup. exists p. by rewrite lookup_take_lt.
  - apply list_elem_of_lookup. exists 0. rewrite lookup_drop.
    by rewrite Nat.add_0_r.
Qed.

(** ** Pruning *)

Lemma mapM_pure {A B} (f : A → M B) l ys w :
  Forall2 (λ x y, f x w = Return y w) l ys → mapM f l w = Return ys w.
Proof.
  induction 1 as [|x y l ys Hx _ IH]; simpl; [done|].
  erewrite bind_Return; [|exact Hx].
  erewrite bind_Return; [|exact IH]. done.
Qed.

Lemma lookups_exist {A} (l : list A) idx :
  Forall (λ i, i < length l) idx →
  ∃ xs, Forall2 (λ i x, l !! i = Some x) idx xs.
Proof.
  induction 1 as [|i idx Hi _ [xs IH]]; [by exists []|].
  apply lookup_lt_is_Some in Hi as [x Hx].
  exists (x :: xs). by constructor.
Qed.

Lemma elem_of_decorated (loglik : list R) n a i :
  length loglik = n →
  (a, i) ∈ zip loglik (seq 0 n) ↔ loglik !! i = Some a.
Proof.
  intros Hlen. rewrite list_elem_of_lookup. split.
  - intros [j Hj]. apply lookup_zip_Some in Hj as [Ha Hi]. simpl in *.
    apply lookup_seq in Hi as [-> _]. done.
  - intros Ha. exists i. apply lookup_zip_Some. split; [done|]. simpl.
    apply lookup_seq. split; [done|]. apply lookup_lt_Some in Ha. lia.
Qed.

(** The run of [_prune_branches] on aligned arrays: the selection is the
    first [k] decorated items of the stable descending sort, and the three
    arrays are read at the selected positions. *)
Lemma prune_branches_run self event_sequences final_state loglik k w :
  length final_state = length event_sequences →
  length loglik = length event_sequences →
  let selection :=
    take k (sorted_reverse Rltb (zip loglik (seq 0 (length event_sequences)))) in
  ∃ event_sequences' final_state',
    _prune_branches self event_sequences final_state loglik k w
    = Return (event_sequences', final_state', selection.*1) w ∧
    Forall2 (λ i r, event_sequences !! i = Some r) selection.*2 event_sequences' ∧
    Forall2 (λ i s, final_state !! i = Some s) selection.*2 final_state'.
Proof.
  intros Hfs Hll selection.
  set (n := length event_sequences) in *.
  assert (∀ a i, (a, i) ∈ selection → loglik !! i = Some a) as Hsel.
  { intros a i Hin. apply (elem_of_decorated loglik n a i Hll).
    rewrite <-(sorted_reverse_perm (zip loglik (seq 0 n))).
    apply elem_of_take in Hin as (j & Hj & _).
    by eapply list_elem_of_lookup_2. }
  assert (Forall (λ i, i < n) selection.*2) as Hrange.
  { apply Forall_forall. intros i [[a i'] [-> Hin]]%list_elem_of_fmap.
    apply Hsel, lookup_lt_Some in Hin. simpl. lia. }
  destruct (lookups_exist event_sequences selection.*2) as [es' Hes'];
    [done|].
  destruct (lookups_exist final_state selection.*2) as [fs' Hfs'];
    [by rewrite Hfs|].
  exists es', fs'. split; [|done].
  assert (nlargest Rltb k (py_range 0 n) (λ i, py_getitem loglik i) w
          = Return selection.*2 w) as Hn.
  { unfold nlargest. destruct (k =? 0) eqn:Ek.
    - apply Nat.eqb_eq in Ek. subst selection. by rewrite Ek.
    - erewrite bind_Return; [done|].
      apply mapM_pure. unfold py_range. rewrite Nat.sub_0_r.
      apply Forall2_same_length_lookup. split.
      + rewrite length_zip, length_seq. lia.
      + intros i j [a j'] Hj Ha. apply lookup_seq in Hj as [-> Hi].
        apply lookup_zip_Some in Ha as [Ha Hj']. simpl in *.
        apply lookup_seq in Hj' as [-> _].
        erewrite bind_Return; [done|]. by apply py_getitem_Some. }
  unfold _prune_branches. fold n.
  erewrite bind_Return; [|exact Hn].
  erewrite bind_Return; [|by apply py_getitems_Forall2].
  erewrite bind_Return; [|by apply py_getitems_Forall2].
  erewrite bind_Return; [done|].
  apply py_getitems_Forall2.
  apply Forall2_same_length_lookup. split; [by rewrite !length_fmap|].
  intros p i a Hi Ha.
  rewrite list_lookup_fmap in Hi. rewrite list_lookup_fmap in Ha.
  destruct (selection !! p) as [[a' i']|] eqn:Hp; [|done].
  simpl in *. injection Hi as ->. injection Ha as ->.
  apply Hsel. apply list_elem_of_lookup. eauto.
Qed.

(** What the selection of [_prune_branches] satisfies. *)
Lemma selection_props (loglik : list R) n k :
  length loglik = n →
  let sorted := sorted_reverse Rltb (zip loglik (seq 0 n)) in
  let selection := take k sorted in
  StronglySorted before sorted ∧
  length selection = k `min` n ∧
  NoDup selection.*2 ∧
  (∀ a i, (a, i) ∈ sorted ↔ loglik !! i = Some a) ∧
  (∀ a i, (a, i) ∈ selection → loglik !! i = Some a) ∧
  (∀ a i, loglik !! i = Some a → i ∉ selection.*2 → (a, i) ∈ drop k sorted).
Proof.
  intros Hlen sorted selection.
  assert (sorted ≡ₚ zip loglik (seq 0 n)) as Hperm
    by apply sorted_reverse_perm.
  assert (∀ a i, (a, i) ∈ sorted ↔ loglik !! i = Some a) as Hin.
  { intros a i. rewrite Hperm. by apply elem_of_decorated. }
  assert (∀ a i, (a, i) ∈ selection → (a, i) ∈ sorted) as Hsub.
  { intros a i (j & Hj & _)%elem_of_take. by eapply list_elem_of_lookup_2. }
  split; [|split; [|split; [|split; [done|split]]]].
  - apply sorted_reverse_sorted. rewrite snd_zip.
    + apply StronglySorted_seq.
    + rewrite length_seq. lia.
  - subst selection. rewrite length_take, Hperm, length_zip, length_seq. lia.
  - subst selection. rewrite fmap_take.
    eapply sublist_NoDup; [|apply sublist_take].
    rewrite Hperm, snd_zip by (rewrite length_seq; lia). apply NoDup_seq.
  - intros a i Hi. by apply Hin, Hsub.
  - intros a i Ha Hni. apply Hin in Ha.
    rewrite <-(take_drop k sorted) in Ha. apply elem_of_app in Ha as [Ha|Ha];
      [|done].
    exfalso. apply Hni. apply list_elem_of_fmap. by exists (a, i).
Qed.

(** The specification of [_prune_branches] on aligned arrays, in terms of the
    positions it selects. *)
Lemma prune_branches_spec self event_sequences final_state loglik k w :
  length final_state = length event_sequences →
  length loglik = length event_sequences →
  ∃ indices event_sequences' final_state' loglik',
    _prune_branches self event_sequences final_state loglik k w
    = Return (event_sequences', final_state', loglik') w ∧
    Forall2 (λ i r, event_sequences !! i = Some r) indices event_sequences' ∧
    Forall2 (λ i s, final_state !! i = Some s) indices final_state' ∧
    Forall2 (λ i a, loglik !! i = Some a) indices loglik' ∧
    length indices = k `min` length event_sequences ∧
    NoDup indices ∧
    (∀ i j a b, i ∈ indices → j ∉ indices →
       loglik !! i = Some a → loglik !! j = Some b → (b <= a)%R) ∧
    (∀ p q i j a, p < q → indices !! p = Some i → indices !! q = Some j →
       loglik !! i = Some a → loglik !! j = Some a → i < j) ∧
    (∀ i j a, i < j → j ∈ indices →
       loglik !! i = Some a → loglik !! j = Some a → i ∈ indices) ∧
    (k = 1 → ∀ i j a b, i ∈ indices →
       loglik !! i = Some a → loglik !! j = Some b → (b <= a)%R) ∧
    (∀ p q i j a b, p < q → indices !! p = Some i → indices !! q = Some j →
       loglik !! i = Some a → loglik !! j = Some b → before (a, i) (b, j)).
Proof.
  intros Hfs Hll.
  destruct (prune_branches_run self event_sequences final_state loglik k w
              Hfs Hll) as (es' & fs' & Hrun & Hes' & Hfs').
  destruct (selection_props loglik (length event_sequences) k Hll)
    as (Hsorted & Hlen & Hnodup & Hin & Hsel & Hdrop).
  set (sorted := sorted_reverse Rltb
                   (zip loglik (seq 0 (length event_sequences)))) in *.
  set (selection := take k sorted) in *.
  assert (∀ i, i ∈ selection.*2 → ∃ a, (a, i) ∈ selection) as Hpair.
  { intros i [[a i'] [-> Hi]]%list_elem_of_fmap. by exists a. }
  assert (∀ i j a b, i ∈ selection.*2 → j ∉ selection.*2 →
            loglik !! i = Some a → loglik !! j = Some b → before (a, i) (b, j))
    as Hkept.
  { intros i j a b Hi Hj Ha Hb.
    destruct (Hpair i Hi) as [a' Ha'].
    assert (a' = a) as -> by (apply Hsel in Ha'; congruence).
    eapply (StronglySorted_app_1_elem_of before selection (drop k sorted));
      [|exact Ha'|by apply Hdrop].
    unfold selection. by rewrite take_drop. }
  assert (StronglySorted before selection) as Hssel.
  { apply (StronglySorted_app_1_l before selection (drop k sorted)).
    unfold selection. by rewrite take_drop. }
  exists selection.*2, es', fs', selection.*1.
  split; [done|]. split; [done|]. split; [done|]. split.
  { apply Forall2_same_length_lookup. split; [by rewrite !length_fmap|].
    intros p i a Hi Ha.
    rewrite list_lookup_fmap in Hi. rewrite list_lookup_fmap in Ha.
    destruct (selection !! p) as [[a' i']|] eqn:Hp; [|done].
    simpl in *. injection Hi as ->. injection Ha as ->.
    apply Hsel. by eapply list_elem_of_lookup_2. }
  split; [by rewrite length_fmap|]. split; [done|].
  assert (∀ p q i j a b, p < q →
            selection.*2 !! p = Some i → selection.*2 !! q = Some j →
            loglik !! i = Some a → loglik !! j = Some b →
            before (a, i) (b, j)) as Hord.
  { intros p q i j a b Hpq Hp Hq Hi Hj.
    rewrite list_lookup_fmap in Hp. rewrite list_lookup_fmap in Hq.
    destruct (selection !! p) as [[a1 i1]|] eqn:Hp1; [|done].
    destruct (selection !! q) as [[a2 i2]|] eqn:Hq1; [|done].
    simpl in *. injection Hp as ->. injection Hq as ->.
    assert (a1 = a) as ->
      by (apply list_elem_of_lookup_2, Hsel in Hp1; congruence).
    assert (a2 = b) as ->
      by (apply list_elem_of_lookup_2, Hsel in Hq1; congruence).
    exact (StronglySorted_lookup before selection p q _ _ Hssel Hpq Hp1 Hq1). }
  split; [|split; [|split; [|split; [|exact Hord]]]].
  - intros i j a b Hi Hj Ha Hb.
    destruct (Hkept i j a b Hi Hj Ha Hb) as [?|[? _]]; simpl in *; lra.
  - intros p q i j a Hpq Hp Hq Hi Hj.
    destruct (Hord p q i j a a Hpq Hp Hq Hi Hj) as [?|[_ ?]]; simpl in *;
      [lra|done].
  - intros i j a Hij Hj Hi Ha.
    destruct (decide (i ∈ selection.*2)) as [|Hni]; [done|].
    destruct (Hkept j i a a Hj Hni Ha Hi) as [?|[_ ?]]; simpl in *; [lra|lia].
  - intros -> i j a b Hi Ha Hb.
    destruct (decide (j ∈ selection.*2)) as [Hj|Hj].
    + assert (length selection.*2 ≤ 1) as Hle by (rewrite length_fmap; lia).
      destruct (selection.*2) as [|i0 [|? ?]]; simpl in Hle; [| |lia].
      * by apply elem_of_nil in Hi.
      * apply list_elem_of_singleton in Hi, Hj. subst. 
        assert (a = b) by congruence. lra.
    + destruct (Hkept i j a b Hi Hj Ha Hb) as [?|[? _]]; simpl in *; lra.
Qed.

(** C4: on aligned arrays [_prune_branches] returns, with the three arrays
    read at the same selected positions; it keeps [min k M] distinct
    candidates; every kept candidate has a log-likelihood at least that of
    every discarded one; among candidates of equal log-likelihood the output
    keeps the input order and prefers the earlier ones; and with [k = 1] the
    kept candidate has the largest log-likelihood of the whole beam. *)
Theorem prune_branches_top_k self event_sequences final_state loglik k w :
  length final_state = length event_sequences →
  length loglik = length event_sequences →
  ∃ indices event_sequences' final_state' loglik',
    _prune_branches self event_sequences final_state loglik k w
    = Return (event_sequences', final_state', loglik') w ∧
    Forall2 (λ i r, event_sequences !! i = Some r) indices event_sequences' ∧
    Forall2 (λ i s, final_state !! i = Some s) indices final_state' ∧
    Forall2 (λ i a, loglik !! i = Some a) indices loglik' ∧
    length indices = k `min` length event_sequences ∧
    NoDup indices ∧
    (∀ i j a b, i ∈ indices → j ∉ indices →
       loglik !! i = Some a → loglik !! j = Some b → (b <= a)%R) ∧
    (∀ p q i j a, p < q → indices !! p = Some i → indices !! q = Some j →
       loglik !! i = Some a → loglik !! j = Some a → i < j) ∧
    (∀ i j a, i < j → j ∈ indices →
       loglik !! i = Some a → loglik !! j = Some a → i ∈ indices) ∧
    (k = 1 → ∀ i j a b, i ∈ indices →
       loglik !! i = Some a → loglik !! j = Some b → (b <= a)%R).
Proof.
  intros Hfs Hll.
  destruct (prune_branches_spec self event_sequences final_state loglik k w
              Hfs Hll)
    as (indices & es' & fs' & ll' & ? & ? & ? & ? & ? & ? & ? & ? & ? & ? & _).
  by exists indices, es', fs', ll'.
Qed.

Lemma StronglySorted_of_lookup {A} (R : relation A) l :
  (∀ p q x y, p < q → l !! p = Some x → l !! q = Some y → R x y) →
  StronglySorted R l.
Proof.
  induction l as [|x l IH]; intros H; constructor.
  - apply IH. intros p q y z Hpq Hp Hq. apply (H (S p) (S q)); [lia|done..].
  - apply Forall_forall. intros y [q Hq]%list_elem_of_lookup.
    apply (H 0 (S q)); [lia|done..].
Qed.

(** On a non-empty aligned beam [beam_finalize] returns a sequence of the
    beam whose log-likelihood is the largest. *)
Lemma beam_finalize_run self event_sequences final_state loglik w :
  length final_state = length event_sequences →
  length loglik = length event_sequences →
  event_sequences ≠ [] →
  ∃ i r a, event_sequences !! i = Some r ∧ loglik !! i = Some a ∧
    (∀ b, b ∈ loglik → (b <= a)%R) ∧
    beam_finalize self event_sequences final_state loglik w = Return r w.
Proof.
  intros Hfs Hll Hne.
  destruct (prune_branches_spec self event_sequences final_state loglik 1 w
              Hfs Hll)
    as (idx1 & es1 & fs1 & ll1 & Hrun1 & Hes1 & _ & Hll1 & Hlen1 & _ & _
        & _ & _ & Hmax & _).
  assert (length idx1 = 1) as Hone.
  { destruct event_sequences; [done|]. simpl in Hlen1. lia. }
  destruct idx1 as [|i [|? ?]]; simpl in Hone; [lia| |lia].
  apply Forall2_cons_inv_l in Hes1 as (r & es1' & Hr & Hnil & ->).
  apply Forall2_nil_inv_l in Hnil as ->.
  apply Forall2_cons_inv_l in Hll1 as (a & ll1' & Ha & Hnil & ->).
  apply Forall2_nil_inv_l in Hnil as ->.
  exists i, r, a. split; [done|]. split; [done|]. split.
  - intros b [j Hj]%list_elem_of_lookup.
    apply (Hmax eq_refl i j a b); [|done..]. by apply list_elem_of_singleton.
  - unfold beam_finalize. erewrite bind_Return; [|exact Hrun1]. done.
Qed.

(** C10: on aligned arrays the survivors of [_prune_branches] come out in
    non-increasing log-likelihood order: a survivor with a strictly larger
    log-likelihood stands before one with a smaller, wherever the two stood
    in the input; so the first survivor has the largest log-likelihood of the
    survivors.  On a non-empty beam [beam_finalize], the end of
    [_beam_search], prunes to one candidate and returns element 0, a sequence
    whose log-likelihood is the largest of the beam. *)
Theorem prune_branches_sorted self event_sequences final_state loglik k w :
  length final_state = length event_sequences →
  length loglik = length event_sequences →
  ∃ indices event_sequences' final_state' loglik',
    _prune_branches self event_sequences final_state loglik k w
    = Return (event_sequences', final_state', loglik') w ∧
    Forall2 (λ i r, event_sequences !! i = Some r) indices event_sequences' ∧
    Forall2 (λ i a, loglik !! i = Some a) indices loglik' ∧
    StronglySorted (λ a b, (b <= a)%R) loglik' ∧
    (∀ p q i j a b, indices !! p = Some i → indices !! q = Some j →
       loglik !! i = Some a → loglik !! j = Some b → (a < b)%R → q < p) ∧
    (∀ a b, loglik' !! 0 = Some a → b ∈ loglik' → (b <= a)%R) ∧
    (event_sequences ≠ [] →
     ∃ i r a, event_sequences !! i = Some r ∧ loglik !! i = Some a ∧
       (∀ b, b ∈ loglik → (b <= a)%R) ∧
       beam_finalize self event_sequences final_state loglik w = Return r w).
Proof.
  intros Hfs Hll.
  destruct (prune_branches_spec self event_sequences final_state loglik k w
              Hfs Hll)
    as (indices & es' & fs' & ll' & Hrun & Hes' & _ & Hll' & _ & Hnd & _ & _
        & _ & _ & Hord).
  assert (∀ p q a b, p < q → ll' !! p = Some a → ll' !! q = Some b →
            (b <= a)%R) as Hdesc.
  { intros p q a b Hpq Ha Hb.
    destruct (Forall2_lookup_r _ _ _ _ _ Hll' Ha) as (i & Hi & Hia).
    destruct (Forall2_lookup_r _ _ _ _ _ Hll' Hb) as (j & Hj & Hjb).
    destruct (Hord p q i j a b Hpq Hi Hj Hia Hjb) as [?|[? _]]; simpl in *;
      lra. }
  exists indices, es', fs', ll'.
  split; [done|]. split; [done|]. split; [done|].
  split; [by apply StronglySorted_of_lookup|].
  split; [|split].
  - intros p q i j a b Hp Hq Ha Hb Hab.
    destruct (Nat.lt_total p q) as [Hpq|[->|Hqp]]; [| |done].
    + destruct (Hord p q i j a b Hpq Hp Hq Ha Hb) as [?|[? _]]; simpl in *;
        lra.
    + assert (i = j) as -> by congruence.
      assert (a = b) by congruence. lra.
  - intros a b Ha [q Hq]%list_elem_of_lookup.
    destruct q as [|q]; [assert (a = b) by congruence; lra|].
    apply (Hdesc 0 (S q)); [lia|done..].
  - intros Hne. by apply beam_finalize_run.
Qed.

(** ** One step on a population, with batches of one *)

Lemma extended_refl rs (h : list (list event)) : extended 0 rs h h.
Proof.
  split; [done|]. intros r s Hs. case_decide; [|done].
  exists []. by rewrite app_nil_r.
Qed.

Lemma extended_alter r e (h : list (list event)) :
  extended 1 [r] h (alter (λ s, s ++ [e]) r h).
Proof.
  split; [by rewrite length_alter|]. intros r' s Hs. case_decide as Hr.
  - apply list_elem_of_singleton in Hr as ->. exists [e]. split; [done|].
    by rewrite list_lookup_alter_eq, Hs.
  - rewrite list_lookup_alter_ne; [done|]. intros ->. apply Hr. by left.
Qed.

Lemma extended_cons r rs (h h1 h2 : list (list event)) :
  r ∉ rs → extended 1 [r] h h1 → extended 1 rs h1 h2 →
  extended 1 (r :: rs) h h2.
Proof.
  intros Hr [Hl1 H1] [Hl2 H2]. split; [congruence|].
  intros r' s Hs. specialize (H1 r' s Hs).
  destruct (decide (r' = r)) as [->|Hne].
  - rewrite decide_True in H1 by by left. destruct H1 as (sfx & Hn & H1).
    specialize (H2 r _ H1). rewrite decide_False in H2 by done.
    rewrite decide_True by by left. eauto.
  - rewrite decide_False in H1 by (by intros ->%list_elem_of_singleton).
    specialize (H2 r' s H1).
    case_decide as Hin; case_decide as Hin'; try done.
    + exfalso. apply Hin'. by right.
    + exfalso. apply elem_of_cons in Hin' as [?|?]; done.
Qed.

Lemma extended_trans n m rs (h h1 h2 : list (list event)) :
  extended n rs h h1 → extended m rs h1 h2 → extended (n + m) rs h h2.
Proof.
  intros [Hl1 H1] [Hl2 H2]. split; [congruence|].
  intros r s Hs. specialize (H1 r s Hs). case_decide.
  - destruct H1 as (sfx1 & Hn & H1). specialize (H2 r _ H1).
    rewrite decide_True in H2 by done. destruct H2 as (sfx2 & Hm & H2).
    exists (sfx1 ++ sfx2). rewrite length_app, (assoc (++)). by split; [lia|].
  - specialize (H2 r s H1). by rewrite decide_False in H2.
Qed.

Lemma generate_step_for_batch_one self r input state temperature w :
  batch_size (hparams (_config self)) = 1 →
  collaborators_ok self →
  ∃ state' p e g,
    _generate_step_for_batch self [r] [input] [state] temperature w
    = Return ([state'], [p])
        (World (alter (λ s, s ++ [e]) r (heap w)) g
               (session_log w ++
                  [FetchStep [input] [state]
                     (if graph_temperature session then Some temperature
                      else None)])).
Proof.
  intros Hb [_ Hok]. unfold _generate_step_for_batch. rewrite Hb. simpl.
  set (feed := if graph_temperature session then Some temperature else None).
  specialize (Hok [input] [state] feed).
  erewrite bind_Return; [|reflexivity].
  erewrite bind_Return; [|reflexivity].
  destruct (run_step session [input] [state] feed) as [fs sm] eqn:Hrun.
  destruct Hok as (Hfs & Hsm & Hrows). simpl in Hfs, Hsm.
  destruct fs as [|state' [|? ?]]; simpl in Hfs; try lia.
  destruct sm as [|row [|? ?]]; simpl in Hsm; try lia.
  apply Forall_singleton in Hrows as (dist & Hlast & Hchoose).
  unfold extend_event_sequences, py_getitem, py_last, np_chosen, np_broadcast,
    heap_read, heap_append, mbind, M_bind, mret, M_ret. simpl.
  rewrite Hlast.
  match goal with
  | |- context [choose_event ?ed ?g ?ev ?d] =>
      pose proof (Hchoose g ev) as Hlt;
      destruct (choose_event ed g ev d) as [[c e] g'] eqn:Hc
  end.
  simpl in Hlt. apply lookup_lt_is_Some in Hlt as [p Hp].
  exists state', p, e, g'. simpl.
  unfold mbind, M_bind, mret, M_ret, py_last, py_getitem.
  rewrite Hlast. simpl. rewrite Hp. done.
Qed.

Lemma py_range_one o : py_range o (o + 1) = [o].
Proof. unfold py_range. by replace (o + 1 - o) with 1 by lia. Qed.

Lemma py_getitems_one {A} (l : list A) o x w :
  l !! o = Some x → py_getitems l [o] w = Return [x] w.
Proof. intros H. apply py_getitems_Forall2. by repeat constructor. Qed.

Lemma np_setitems_one {A} (a : list A) o x w :
  o < length a → np_setitems a [o] [x] w = Return (<[o:=x]> a) w.
Proof.
  intros Ho. unfold np_setitems. simpl.
  apply Nat.ltb_lt in Ho. by rewrite Ho.
Qed.

Lemma extended_nil n (h : list (list event)) : extended n [] h h.
Proof.
  split; [done|]. intros r s Hs. rewrite decide_False; [done|].
  apply not_elem_of_nil.
Qed.

Lemma full_batches_one self n event_sequences inputs initial_state
    temperature offset final_state softmax w :
  batch_size (hparams (_config self)) = 1 →
  collaborators_ok self →
  NoDup event_sequences →
  offset + n ≤ length event_sequences →
  offset + n ≤ length inputs →
  offset + n ≤ length initial_state →
  length final_state = length event_sequences →
  length softmax = length event_sequences →
  ∃ final_state' softmax' w',
    full_batches self n event_sequences inputs initial_state temperature
                 offset final_state softmax w
    = Return (offset + n, final_state', softmax') w' ∧
    length final_state' = length event_sequences ∧
    length softmax' = length event_sequences ∧
    extended 1 (take n (drop offset event_sequences)) (heap w) (heap w') ∧
    length (session_log w') = length (session_log w) + n.
Proof.
  intros Hb Hok Hnd. revert offset final_state softmax w.
  induction n as [|n IH]; intros offset fs sm w Hes Hin Hst Hfs Hsm.
  - exists fs, sm, w. simpl. rewrite !Nat.add_0_r.
    split; [done|]. split; [done|]. split; [done|].
    split; [apply extended_nil|done].
  - destruct (lookup_lt_is_Some_2 event_sequences offset) as [r Hr]; [lia|].
    destruct (lookup_lt_is_Some_2 inputs offset) as [input Hinput]; [lia|].
    destruct (lookup_lt_is_Some_2 initial_state offset) as [state Hstate];
      [lia|].
    destruct (generate_step_for_batch_one self r input state temperature w
                Hb Hok) as (state' & p & e & g & Hstep).
    set (w1 := World _ _ _) in Hstep.
    destruct (IH (offset + 1) (<[offset:=state']> fs) (<[offset:=p]> sm) w1)
      as (fs' & sm' & w' & Hrun & Hfs' & Hsm' & Hext & Hlog);
      [lia|lia|lia|by rewrite length_insert|by rewrite length_insert|].
    exists fs', sm', w'. simpl full_batches. rewrite Hb, py_range_one.
    erewrite bind_Return; [|by apply py_getitems_one].
    erewrite bind_Return; [|by apply py_getitems_one].
    erewrite bind_Return; [|by apply py_getitems_one].
    erewrite bind_Return; [|exact Hstep]. cbv beta iota.
    erewrite bind_Return; [|apply np_setitems_one; lia].
    erewrite bind_Return; [|apply np_setitems_one; lia].
    rewrite Hrun. replace (offset + 1 + n) with (offset + S n) by lia.
    split; [done|]. split; [done|]. split; [done|]. split.
    + erewrite drop_S by done. rewrite firstn_cons.
      apply extended_cons with (heap w1).
      * intros (j & Hj & _)%elem_of_take. rewrite lookup_drop in Hj.
        pose proof (NoDup_lookup _ _ _ _ Hnd Hr Hj). lia.
      * apply extended_alter.
      * by replace (S offset) with (offset + 1) by lia.
    + rewrite Hlog. subst w1. simpl. rewrite length_app. simpl. lia.
Qed.

(** With a batch size of 1 and collaborators that keep their contract,
    [_generate_step] returns on every population of distinct sequences whose
    inputs and state rows are there: each sequence got one more event, one
    session call was made per sequence, and both outputs have one entry per
    sequence. *)
Lemma generate_step_one self event_sequences inputs initial_state
    temperature w :
  batch_size (hparams (_config self)) = 1 →
  collaborators_ok self →
  NoDup event_sequences →
  length event_sequences ≤ length inputs →
  length event_sequences ≤ length initial_state →
  ∃ final_state softmax w',
    _generate_step self event_sequences inputs initial_state temperature w
    = Return (final_state, softmax) w' ∧
    length final_state = length event_sequences ∧
    length softmax = length event_sequences ∧
    extended 1 event_sequences (heap w) (heap w') ∧
    length (session_log w')
    = length (session_log w) + length event_sequences.
Proof.
  intros Hb Hok Hnd Hin Hst.
  set (N := length event_sequences) in *.
  destruct (full_batches_one self N event_sequences inputs initial_state
              temperature 0 (replicate N uninit_row)
              (replicate N uninit_float) w Hb Hok Hnd)
    as (fs & sm & w' & Hrun & Hfs & Hsm & Hext & Hlog);
    [done|done|done|by rewrite length_replicate..|].
  exists fs, sm, w'. unfold _generate_step, py_floordiv. rewrite Hb.
  simpl Nat.eqb. cbv iota. erewrite bind_Return; [|reflexivity].
  rewrite Nat.div_1_r. fold N. erewrite bind_Return; [|exact Hrun].
  cbv beta iota. simpl "+". rewrite Nat.ltb_irrefl.
  rewrite drop_0 in Hext. unfold N in Hext. rewrite firstn_all in Hext. done.
Qed.

(** ** Copies *)

Lemma deepcopy_all {A} (f : A → ref) (l : list A) w :
  Forall (λ x, f x < length (heap w)) l →
  mapM (λ x, deepcopy (f x)) l w
  = Return (seq (length (heap w)) (length l))
      (World (heap w ++ ((λ x, default [] (heap w !! f x)) <$> l))
             (sampler w) (session_log w)).
Proof.
  revert w. induction l as [|x l IH]; intros w Hl.
  - simpl. rewrite app_nil_r. by destruct w.
  - apply Forall_cons in Hl as [Hx Hl]. simpl mapM.
    erewrite bind_Return; [|reflexivity].
    erewrite bind_Return; [|apply IH].
    + simpl. rewrite length_app. simpl.
      replace (length (heap w) + 1) with (S (length (heap w))) by lia.
      rewrite <-(assoc (++)). simpl. do 4 f_equal.
      apply list_fmap_ext. intros j y Hy.
      apply list_elem_of_lookup_2 in Hy.
      rewrite lookup_app_l; [done|].
      by apply (proj1 (Forall_forall _ _) Hl).
    + simpl. rewrite length_app. simpl.
      eapply Forall_impl; [exact Hl|]. simpl. lia.
Qed.

Lemma length_py_list_mul {A} (l : list A) n :
  length (py_list_mul l n) = length l * n.
Proof.
  unfold py_list_mul. rewrite length_join, fmap_replicate, sum_list_replicate.
  lia.
Qed.

Lemma elem_of_py_list_mul {A} (l : list A) n x :
  x ∈ py_list_mul l n → x ∈ l.
Proof.
  unfold py_list_mul. intros (l' & Hx & Hl')%list_elem_of_join.
  by apply elem_of_replicate in Hl' as [-> _].
Qed.

Lemma population_extended primer t n rs (h h' : list (list event)) :
  population_of primer t h rs → extended n rs h h' →
  population_of primer (t + n) h' rs.
Proof.
  intros [Hnd Hpop] [_ Hext]. split; [done|]. intros r Hr.
  destruct (Hpop r Hr) as (sfx & Hs & Hlen).
  specialize (Hext r _ Hs). rewrite decide_True in Hext by done.
  destruct Hext as (sfx' & Hlen' & Hs').
  exists (sfx ++ sfx'). rewrite (assoc (++)), length_app. by split; [|lia].
Qed.

Lemma population_copies primer t rs branch_factor w :
  population_of primer t (heap w) rs →
  ∃ w', mapM deepcopy (py_list_mul rs branch_factor) w
        = Return (seq (length (heap w)) (length rs * branch_factor)) w' ∧
    population_of primer t (heap w')
                  (seq (length (heap w)) (length rs * branch_factor)) ∧
    (∀ r, r < length (heap w) → heap w' !! r = heap w !! r) ∧
    length (heap w) ≤ length (heap w') ∧
    session_log w' = session_log w.
Proof.
  intros [Hnd Hpop].
  assert (Forall (λ r, r < length (heap w)) (py_list_mul rs branch_factor))
    as Hvalid.
  { apply Forall_forall. intros r Hr%elem_of_py_list_mul.
    destruct (Hpop r Hr) as (sfx & Hs & _). by eapply lookup_lt_Some. }
  eexists. split.
  { rewrite <-length_py_list_mul. exact (deepcopy_all (λ r : ref, r) _ w Hvalid). }
  simpl. split; [split|split; [|split]].
  - apply NoDup_seq.
  - intros r [Hr1 Hr2]%elem_of_seq.
    rewrite lookup_app_r by lia. rewrite list_lookup_fmap.
    destruct (py_list_mul rs branch_factor !! (r - length (heap w)))
      as [r0|] eqn:Hr0.
    + simpl. apply list_elem_of_lookup_2, elem_of_py_list_mul in Hr0.
      destruct (Hpop r0 Hr0) as (sfx & Hs & Hlen).
      exists sfx. by rewrite Hs.
    + apply lookup_ge_None in Hr0. rewrite length_py_list_mul in Hr0. lia.
  - intros r Hr. by rewrite lookup_app_l.
  - rewrite length_app. lia.
  - done.
Qed.

(** ** Branching *)

Lemma np_iadd_aligned (a b : list R) w :
  length b = length a → np_iadd a b w = Return (zip_with Rplus a b) w.
Proof.
  intros Hlen. unfold np_iadd, np_broadcast.
  apply Nat.eqb_eq in Hlen. by rewrite Hlen.
Qed.

Lemma branch_steps_one self n event_sequences inputs state loglik
    temperature w :
  batch_size (hparams (_config self)) = 1 →
  collaborators_ok self →
  NoDup event_sequences →
  length event_sequences ≤ length inputs →
  length state = length event_sequences →
  length loglik = length event_sequences →
  ∃ state' loglik' w',
    branch_steps self n event_sequences inputs state loglik temperature w
    = Return (state', loglik') w' ∧
    length state' = length event_sequences ∧
    length loglik' = length event_sequences ∧
    extended n event_sequences (heap w) (heap w') ∧
    length (session_log w')
    = length (session_log w) + n * length event_sequences.
Proof.
  intros Hb Hok Hnd Hin. revert state loglik w.
  induction n as [|n IH]; intros state loglik w Hst Hll.
  - exists state, loglik, w. simpl.
    split; [done|]. split; [done|]. split; [done|].
    split; [apply extended_refl|lia].
  - destruct (generate_step_one self event_sequences inputs state temperature
                w Hb Hok Hnd Hin)
      as (st1 & sm & w1 & Hstep & Hst1 & Hsm & Hext1 & Hlog1); [lia|].
    destruct (IH st1 (zip_with Rplus loglik (ln <$> sm)) w1)
      as (st' & ll' & w' & Hrun & Hst' & Hll' & Hext & Hlog); [done| |].
    { rewrite length_zip_with, length_fmap. lia. }
    exists st', ll', w'. simpl branch_steps.
    erewrite bind_Return; [|exact Hstep]. cbv beta iota.
    erewrite bind_Return;
      [|apply np_iadd_aligned; rewrite length_fmap; congruence].
    split; [done|]. split; [done|]. split; [done|]. split.
    + change (S n) with (1 + n). by eapply extended_trans.
    + lia.
Qed.

(** With a batch size of 1 and collaborators that keep their contract,
    [_generate_branches] returns on every aligned population: the new
    population has [branch_factor] times the size, with as many state rows
    and log-likelihoods; its sequences are fresh objects, each a copy of a
    sequence of the old population with [num_steps] more events; the objects
    that existed before are untouched; and one session call was made per new
    sequence and step. *)
Lemma generate_branches_one self primer t event_sequences loglik branch_factor
    num_steps inputs initial_state temperature w :
  batch_size (hparams (_config self)) = 1 →
  collaborators_ok self →
  population_of primer t (heap w) event_sequences →
  length inputs = length event_sequences →
  length initial_state = length event_sequences →
  length loglik = length event_sequences →
  ∃ event_sequences' final_state' loglik' w',
    _generate_branches self event_sequences loglik branch_factor num_steps
                       inputs initial_state temperature w
    = Return (event_sequences', final_state', loglik') w' ∧
    length event_sequences' = length event_sequences * branch_factor ∧
    length final_state' = length event_sequences * branch_factor ∧
    length loglik' = length event_sequences * branch_factor ∧
    population_of primer (t + Z.to_nat num_steps) (heap w') event_sequences' ∧
    (∀ r, r < length (heap w) → heap w' !! r = heap w !! r) ∧
    length (heap w) ≤ length (heap w') ∧
    length (session_log w')
    = length (session_log w)
      + Z.to_nat num_steps * (length event_sequences * branch_factor).
Proof.
  intros Hb Hok Hpop Hin Hst Hll.
  destruct (population_copies primer t event_sequences branch_factor w Hpop)
    as (w0 & Hcopy & Hpop0 & Hold0 & Hlen0 & Hlog0).
  set (es' := seq (length (heap w)) (length event_sequences * branch_factor))
    in *.
  assert (length es' = length event_sequences * branch_factor) as Hes'
    by apply length_seq.
  destruct (branch_steps_one self (Z.to_nat num_steps) es'
              (py_list_mul inputs branch_factor)
              (np_tile initial_state branch_factor)
              (np_tile loglik branch_factor) temperature w0 Hb Hok)
    as (st' & ll' & w' & Hrun & Hst' & Hll' & Hext & Hlog).
  { apply NoDup_seq. }
  { rewrite length_py_list_mul, Hin. unfold es'. by rewrite length_seq. }
  { unfold np_tile. fold (py_list_mul initial_state branch_factor).
    rewrite length_py_list_mul, Hst. unfold es'. by rewrite length_seq. }
  { unfold np_tile. fold (py_list_mul loglik branch_factor).
    rewrite length_py_list_mul, Hll. unfold es'. by rewrite length_seq. }
  exists es', st', ll', w'. unfold _generate_branches.
  erewrite bind_Return; [|exact Hcopy].
  erewrite bind_Return; [|exact Hrun]. cbv beta iota.
  split; [done|]. split; [done|].
  split; [by rewrite Hst'|]. split; [by rewrite Hll'|].
  split; [by eapply population_extended|].
  destruct Hext as [Hlen Hext].
  split; [|split; [lia|]];
    [|rewrite Hlog, Hlog0; unfold es'; by rewrite ?length_seq].
  intros r Hr. rewrite <-(Hold0 r Hr).
  destruct (heap w0 !! r) as [s0|] eqn:Hs0.
  - specialize (Hext r s0 Hs0). rewrite decide_False in Hext; [done|].
    intros [? ?]%elem_of_seq. lia.
  - apply lookup_ge_None in Hs0. apply lookup_ge_None. lia.
Qed.

(** ** The beam *)

Lemma get_inputs_batch_run ed event_sequences full_length w :
  get_inputs_batch ed event_sequences full_length w
  = Return ((λ r, events_to_input ed (default [] (heap w !! r)) full_length)
              <$> event_sequences) w.
Proof.
  unfold get_inputs_batch. apply mapM_pure.
  apply Forall2_fmap_r, Forall_Forall2_diag, Forall_forall. by intros r _.
Qed.

Lemma prune_population self primer t event_sequences final_state loglik k w :
  population_of primer t (heap w) event_sequences →
  length final_state = length event_sequences →
  length loglik = length event_sequences →
  ∃ event_sequences' final_state' loglik',
    _prune_branches self event_sequences final_state loglik k w
    = Return (event_sequences', final_state', loglik') w ∧
    length event_sequences' = k `min` length event_sequences ∧
    length final_state' = k `min` length event_sequences ∧
    length loglik' = k `min` length event_sequences ∧
    population_of primer t (heap w) event_sequences'.
Proof.
  intros [Hnd Hpop] Hfs Hll.
  destruct (prune_branches_spec self event_sequences final_state loglik k w
              Hfs Hll)
    as (indices & es' & fs' & ll' & Hrun & Hes' & Hfs' & Hll' & Hlen & Hndi
        & _).
  exists es', fs', ll'. split; [done|].
  split; [by rewrite <-(Forall2_length _ _ _ Hes')|].
  split; [by rewrite <-(Forall2_length _ _ _ Hfs')|].
  split; [by rewrite <-(Forall2_length _ _ _ Hll')|].
  split.
  - apply NoDup_alt. intros p q r Hp Hq.
    destruct (Forall2_lookup_r _ _ _ _ _ Hes' Hp) as (i & Hi & Hir).
    destruct (Forall2_lookup_r _ _ _ _ _ Hes' Hq) as (j & Hj & Hjr).
    assert (i = j) as -> by (by eapply (NoDup_lookup event_sequences)).
    by eapply (NoDup_lookup indices).
  - intros r [p Hp]%list_elem_of_lookup.
    destruct (Forall2_lookup_r _ _ _ _ _ Hes' Hp) as (i & _ & Hir).
    apply Hpop. by eapply list_elem_of_lookup_2.
Qed.

Lemma beam_init_run self events primer num_steps beam_size
    steps_per_iteration w :
  heap w !! events = Some primer →
  steps_per_iteration ≠ 0%Z →
  ∃ inputs w',
    beam_init self events num_steps beam_size steps_per_iteration w
    = Return (seq (length (heap w)) beam_size, replicate beam_size 0%R,
              ((num_steps - 1) `mod` steps_per_iteration + 1)%Z, inputs,
              np_tile (run_initial_state session) beam_size) w' ∧
    length inputs = beam_size ∧
    population_of primer 0 (heap w') (seq (length (heap w)) beam_size) ∧
    (∀ r, r < length (heap w) → heap w' !! r = heap w !! r) ∧
    session_log w' = session_log w ++ [FetchInitialState].
Proof.
  intros Hprimer Hspi.
  pose proof (deepcopy_all (λ _ : nat, events) (py_range 0 beam_size) w)
    as Hcopy.
  unfold py_range in Hcopy. rewrite Nat.sub_0_r, length_seq in Hcopy.
  eexists _, _. unfold beam_init, py_range. rewrite Nat.sub_0_r.
  erewrite bind_Return; [|apply Hcopy].
  2:{ apply Forall_forall. intros _ _. by eapply lookup_lt_Some. }
  unfold first_iteration_num_steps, py_mod.
  apply Z.eqb_neq in Hspi. rewrite Hspi.
  erewrite bind_Return; [|reflexivity].
  erewrite bind_Return; [|apply get_inputs_batch_run].
  erewrite bind_Return; [|reflexivity].
  split; [reflexivity|]. simpl.
  split; [by rewrite length_fmap, length_seq|]. split; [split|split; [|done]].
  - apply NoDup_seq.
  - intros r [Hr1 Hr2]%elem_of_seq. exists []. split; [|done].
    rewrite lookup_app_r by lia. rewrite list_lookup_fmap.
    destruct (seq 0 beam_size !! (r - length (heap w))) as [j|] eqn:Hj.
    + simpl. by rewrite Hprimer, app_nil_r.
    + apply lookup_ge_None in Hj. rewrite length_seq in Hj. lia.
  - intros r Hr. by rewrite lookup_app_l.
Qed.

Lemma beam_iterations_one self primer t n event_sequences final_state loglik
    temperature beam_size branch_factor steps_per_iteration w :
  batch_size (hparams (_config self)) = 1 →
  collaborators_ok self →
  1 ≤ branch_factor →
  population_of primer t (heap w) event_sequences →
  length event_sequences = beam_size * branch_factor →
  length final_state = beam_size * branch_factor →
  length loglik = beam_size * branch_factor →
  ∃ event_sequences' final_state' loglik' w',
    beam_iterations self n event_sequences final_state loglik temperature
                    beam_size branch_factor steps_per_iteration w
    = Return (event_sequences', final_state', loglik') w' ∧
    length event_sequences' = beam_size * branch_factor ∧
    length final_state' = beam_size * branch_factor ∧
    length loglik' = beam_size * branch_factor ∧
    population_of primer (t + n * Z.to_nat steps_per_iteration) (heap w')
                  event_sequences' ∧
    (∀ r, r < length (heap w) → heap w' !! r = heap w !! r) ∧
    length (heap w) ≤ length (heap w') ∧
    length (session_log w')
    = length (session_log w)
      + n * (Z.to_nat steps_per_iteration * (beam_size * branch_factor)).
Proof.
  intros Hb Hok Hbf. revert t event_sequences final_state loglik w.
  induction n as [|n IH]; intros t es fs ll w Hpop Hes Hfs Hll.
  - exists es, fs, ll, w. simpl. rewrite Nat.add_0_r.
    repeat (split; [done|]). lia.
  - destruct (prune_population self primer t es fs ll beam_size w Hpop)
      as (es1 & fs1 & ll1 & Hprune & Hes1 & Hfs1 & Hll1 & Hpop1);
      [congruence..|].
    assert (beam_size `min` length es = beam_size) as Hmin by (rewrite Hes; nia).
    rewrite Hmin in Hes1, Hfs1, Hll1.
    destruct (generate_branches_one self primer t es1 ll1 branch_factor
                steps_per_iteration
                ((λ r, events_to_input (encoder_decoder (_config self))
                         (default [] (heap w !! r)) false) <$> es1)
                fs1 temperature w Hb Hok Hpop1)
      as (es2 & fs2 & ll2 & w2 & Hbranch & Hes2 & Hfs2 & Hll2 & Hpop2 & Hold2
          & Hheap2 & Hlog2);
      [by rewrite length_fmap|congruence..|].
    rewrite Hes1 in Hes2, Hfs2, Hll2, Hlog2.
    destruct (IH _ es2 fs2 ll2 w2 Hpop2 Hes2 Hfs2 Hll2)
      as (es' & fs' & ll' & w' & Hrun & Hes' & Hfs' & Hll' & Hpop' & Hold'
          & Hheap' & Hlog').
    exists es', fs', ll', w'. simpl beam_iterations.
    erewrite bind_Return; [|exact Hprune]. cbv beta iota.
    erewrite bind_Return; [|apply get_inputs_batch_run].
    erewrite bind_Return; [|exact Hbranch]. cbv beta iota.
    split; [done|]. split; [done|]. split; [done|]. split; [done|].
    split; [|split; [|split; [lia|]]].
    + by replace (t + S n * Z.to_nat steps_per_iteration)
        with (t + Z.to_nat steps_per_iteration
              + n * Z.to_nat steps_per_iteration) by lia.
    + intros r Hr. rewrite Hold' by lia. by apply Hold2.
    + rewrite Hlog', Hlog2. lia.
Qed.

(** How [_beam_search] splits the steps. *)
Lemma steps_split (num_steps steps_per_iteration : Z) :
  (1 ≤ num_steps)%Z → (1 ≤ steps_per_iteration)%Z →
  let first := ((num_steps - 1) `mod` steps_per_iteration + 1)%Z in
  let iterations := ((num_steps - first) `div` steps_per_iteration)%Z in
  (1 ≤ first ≤ steps_per_iteration)%Z ∧
  ((num_steps - first) `mod` steps_per_iteration = 0)%Z ∧
  (0 ≤ iterations)%Z ∧
  (first + iterations * steps_per_iteration = num_steps)%Z ∧
  Z.to_nat first + Z.to_nat iterations * Z.to_nat steps_per_iteration
  = Z.to_nat num_steps.
Proof.
  intros Hn Hs first iterations.
  pose proof (Z.mod_pos_bound (num_steps - 1) steps_per_iteration) as Hbound.
  pose proof (Z.div_mod (num_steps - 1) steps_per_iteration) as Hdm.
  assert ((num_steps - first
           = (num_steps - 1) `div` steps_per_iteration * steps_per_iteration)%Z)
    as Hq by (unfold first; lia).
  assert ((0 ≤ (num_steps - 1) `div` steps_per_iteration)%Z) as Hq0
    by (apply Z.div_pos; lia).
  assert (iterations = ((num_steps - 1) `div` steps_per_iteration)%Z) as Hit.
  { unfold iterations. rewrite Hq. apply Z.div_mul. lia. }
  split; [unfold first; lia|]. split; [rewrite Hq; apply Z.mod_mul; lia|].
  split; [lia|]. split; [lia|].
  rewrite <-Z2Nat.inj_mul, <-Z2Nat.inj_add by (unfold first; nia).
  f_equal. lia.
Qed.

Lemma length_np_tile {A} (a : list A) n : length (np_tile a n) = length a * n.
Proof. apply length_py_list_mul. Qed.

(** With a batch size of 1, collaborators that keep their contract and
    positive parameters, [_beam_search] returns a sequence that is the primer
    followed by [num_steps] generated events; the objects that existed before
    are untouched; and besides the fetch of the initial state one session
    call was made per step and per sequence of the branched population. *)
Lemma beam_search_run self primer events num_steps temperature beam_size
    branch_factor steps_per_iteration w :
  batch_size (hparams (_config self)) = 1 →
  collaborators_ok self →
  heap w !! events = Some primer →
  (1 ≤ num_steps)%Z → 1 ≤ beam_size → 1 ≤ branch_factor →
  (1 ≤ steps_per_iteration)%Z →
  ∃ r suffix w',
    _beam_search self events num_steps temperature beam_size branch_factor
                 steps_per_iteration w = Return r w' ∧
    heap w' !! r = Some (primer ++ suffix) ∧
    length suffix = Z.to_nat num_steps ∧
    (∀ r0, r0 < length (heap w) → heap w' !! r0 = heap w !! r0) ∧
    length (session_log w')
    = length (session_log w) + 1
      + Z.to_nat num_steps * (beam_size * branch_factor).
Proof.
  intros Hb Hok Hprimer Hn Hbeam Hbf Hspi.
  destruct (steps_split num_steps steps_per_iteration Hn Hspi)
    as (Hfirst & _ & Hit & _ & Hsum).
  set (first := ((num_steps - 1) `mod` steps_per_iteration + 1)%Z) in *.
  set (iterations := ((num_steps - first) `div` steps_per_iteration)%Z) in *.
  destruct (beam_init_run self events primer num_steps beam_size
              steps_per_iteration w Hprimer)
    as (inputs & w0 & Hinit & Hinputs & Hpop0 & Hold0 & Hlog0); [lia|].
  fold first in Hinit.
  set (es0 := seq (length (heap w)) beam_size) in *.
  assert (length es0 = beam_size) as Hes0 by apply length_seq.
  assert (length (heap w) ≤ length (heap w0)) as Hheap0.
  { destruct (decide (length (heap w) ≤ length (heap w0))) as [|Hgt]; [done|].
    pose proof (Hold0 (length (heap w0))) as Hcontra.
    rewrite lookup_ge_None_2 in Hcontra by lia.
    apply lookup_lt_Some in Hprimer.
    destruct (lookup_lt_is_Some_2 (heap w) (length (heap w0))) as [? Hx];
      [lia|]. rewrite Hx in Hcontra. by specialize (Hcontra ltac:(lia)). }
  destruct (generate_branches_one self primer 0 es0 (replicate beam_size 0%R)
              branch_factor first inputs
              (np_tile (run_initial_state session) beam_size) temperature w0
              Hb Hok Hpop0)
    as (es1 & fs1 & ll1 & w1 & Hbranch & Hes1 & Hfs1 & Hll1 & Hpop1 & Hold1
        & Hheap1 & Hlog1).
  { rewrite Hinputs. unfold es0. by rewrite length_seq. }
  { rewrite length_np_tile, (proj1 Hok), Hb. unfold es0.
    rewrite length_seq. lia. }
  { rewrite length_replicate. unfold es0. by rewrite length_seq. }
  unfold es0 in Hes1, Hfs1, Hll1, Hlog1.
  rewrite length_seq in Hes1, Hfs1, Hll1, Hlog1.
  destruct (beam_iterations_one self primer (0 + Z.to_nat first)
              (Z.to_nat iterations) es1 fs1 ll1 temperature beam_size
              branch_factor steps_per_iteration w1 Hb Hok Hbf Hpop1 Hes1 Hfs1
              Hll1)
    as (es2 & fs2 & ll2 & w2 & Hloop & Hes2 & Hfs2 & Hll2 & Hpop2 & Hold2
        & Hheap2 & Hlog2).
  destruct (beam_finalize_run self es2 fs2 ll2 w2) as (i & r & a & Hr & _ & _
                                                        & Hfin);
    [congruence|congruence| |].
  { intros ->. simpl in Hes2. nia. }
  destruct Hpop2 as [_ Hpop2].
  destruct (Hpop2 r) as (suffix & Hsuffix & Hlen);
    [by eapply list_elem_of_lookup_2|].
  exists r, suffix, w2. unfold _beam_search.
  erewrite bind_Return; [|exact Hinit]. cbv beta iota.
  erewrite bind_Return; [|exact Hbranch]. cbv beta iota.
  unfold num_iterations, py_div.
  destruct (Z.eqb_spec steps_per_iteration 0) as [|_]; [lia|].
  erewrite bind_Return; [|reflexivity]. fold iterations.
  erewrite bind_Return; [|exact Hloop]. cbv beta iota.
  split; [done|]. split; [done|]. split; [lia|]. split.
  - intros r0 Hr0. rewrite Hold2, Hold1 by lia. by apply Hold0.
  - rewrite Hlog2, Hlog1, Hlog0, length_app. simpl. nia.
Qed.

(** ** Sizes, for any batch size and any collaborators *)

Lemma mapM_length {A B} (f : A → M B) l ys w w' :
  mapM f l w = Return ys w' → length ys = length l.
Proof.
  revert ys w w'. induction l as [|x l IH]; intros ys w w' H; simpl in H.
  - by apply ret_inv in H as [<- _].
  - apply bind_inv in H as (y & w1 & _ & H).
    apply bind_inv in H as (ys' & w2 & Hys & H).
    apply ret_inv in H as [<- _]. simpl. f_equal. by eapply IH.
Qed.

Lemma np_broadcast_inv {A} n (v vs : list A) w w' :
  np_broadcast n v w = Return vs w' → length vs = n ∧ w' = w.
Proof.
  unfold np_broadcast. destruct (length v =? n) eqn:E.
  - apply Nat.eqb_eq in E. intros [<- <-]%ret_inv. by split.
  - destruct v as [|x [|? ?]]; try done.
    intros [<- <-]%ret_inv. by rewrite length_replicate.
Qed.

Lemma np_setitems_length {A} (a : list A) idx v a' w w' :
  np_setitems a idx v w = Return a' w' → length a' = length a.
Proof.
  unfold np_setitems. destruct (forallb _ idx); [|done].
  intros (vs & w1 & _ & H)%bind_inv. apply ret_inv in H as [<- _].
  generalize (zip idx vs). intros l. revert a.
  induction l as [|[j x] l IH]; intros a; simpl; [done|].
  by rewrite IH, length_insert.
Qed.

Lemma full_batches_length self n event_sequences inputs initial_state
    temperature offset final_state softmax w offset' final_state' softmax' w' :
  full_batches self n event_sequences inputs initial_state temperature
               offset final_state softmax w
  = Return (offset', final_state', softmax') w' →
  length final_state' = length final_state ∧ length softmax' = length softmax.
Proof.
  revert offset final_state softmax w.
  induction n as [|n IH]; intros offset final_state softmax w H; simpl in H.
  - by apply ret_inv in H as [[= <- <- <-] _].
  - apply bind_inv in H as (? & ? & _ & H).
    apply bind_inv in H as (? & ? & _ & H).
    apply bind_inv in H as (? & ? & _ & H).
    apply bind_inv in H as ([? ?] & ? & _ & H).
    apply bind_inv in H as (fs1 & ? & Hfs1%np_setitems_length & H).
    apply bind_inv in H as (sm1 & ? & Hsm1%np_setitems_length & H).
    apply IH in H as [? ?]. split; congruence.
Qed.

Lemma generate_step_length self event_sequences inputs initial_state
    temperature w final_state softmax w' :
  _generate_step self event_sequences inputs initial_state temperature w
  = Return (final_state, softmax) w' →
  length final_state = length event_sequences ∧
  length softmax = length event_sequences.
Proof.
  unfold _generate_step. intros (nfull & w1 & _ & H)%bind_inv.
  apply bind_inv in H as ([[offset fs] sm] & w2 & Hfull & H).
  apply full_batches_length in Hfull as [Hfs Hsm].
  rewrite length_replicate in Hfs. rewrite length_replicate in Hsm.
  destruct (offset <? length event_sequences).
  - destruct (pad_batch_never_returns self event_sequences inputs
                initial_state temperature offset fs sm w2) as (e & w3 & Hpad).
    congruence.
  - by apply ret_inv in H as [[= <- <-] _].
Qed.

Lemma np_iadd_inv (a b c : list R) w w' :
  length b = length a →
  np_iadd a b w = Return c w' → c = zip_with Rplus a b ∧ w' = w.
Proof.
  intros Hlen H. rewrite np_iadd_aligned in H by done.
  by injection H as <- <-.
Qed.

(** Every run of [branch_steps] on aligned arrays is a run of [n] calls of
    [_generate_step], each returning one chosen probability per sequence,
    whose logarithms were added to the log-likelihoods call after call. *)
Lemma branch_steps_inv self n event_sequences inputs state loglik temperature
    w state' loglik' w' :
  length state = length event_sequences →
  length loglik = length event_sequences →
  branch_steps self n event_sequences inputs state loglik temperature w
  = Return (state', loglik') w' →
  ∃ softmaxes,
    generated_steps self event_sequences inputs temperature
                    state w softmaxes state' w' ∧
    length softmaxes = n ∧
    Forall (λ softmax, length softmax = length event_sequences) softmaxes ∧
    loglik' = foldl (λ acc softmax, zip_with Rplus acc (ln <$> softmax))
                    loglik softmaxes ∧
    length state' = length event_sequences ∧
    length loglik' = length event_sequences.
Proof.
  revert state loglik w.
  induction n as [|n IH]; intros state loglik w Hst Hll H; simpl in H.
  - apply ret_inv in H as [[= <- <-] <-]. exists [].
    split; [constructor|]. by repeat split.
  - apply bind_inv in H as ([st1 sm] & w1 & Hstep & H).
    pose proof (generate_step_length _ _ _ _ _ _ _ _ _ Hstep) as [Hst1 Hsm].
    apply bind_inv in H as (ll1 & w2 & Hadd & H).
    apply np_iadd_inv in Hadd as [-> ->];
      [|rewrite length_fmap; congruence].
    apply IH in H as (sms & Hgen & Hlen & Hall & -> & Hst' & Hll');
      [|done|rewrite length_zip_with, length_fmap; lia].
    exists (sm :: sms). split; [by econstructor|].
    split; [simpl; lia|]. split; [by constructor|]. done.
Qed.

Lemma generate_branches_inv self event_sequences loglik branch_factor
    num_steps inputs initial_state temperature w
    event_sequences' final_state' loglik' w' :
  length initial_state = length event_sequences →
  length loglik = length event_sequences →
  _generate_branches self event_sequences loglik branch_factor num_steps
                     inputs initial_state temperature w
  = Return (event_sequences', final_state', loglik') w' →
  ∃ w0 softmaxes,
    mapM deepcopy (py_list_mul event_sequences branch_factor) w
    = Return event_sequences' w0 ∧
    generated_steps self event_sequences' (py_list_mul inputs branch_factor)
                    temperature (np_tile initial_state branch_factor) w0
                    softmaxes final_state' w' ∧
    length softmaxes = Z.to_nat num_steps ∧
    Forall (λ softmax, length softmax = length event_sequences * branch_factor)
           softmaxes ∧
    loglik' = foldl (λ acc softmax, zip_with Rplus acc (ln <$> softmax))
                    (np_tile loglik branch_factor) softmaxes ∧
    length event_sequences' = length event_sequences * branch_factor ∧
    length final_state' = length event_sequences * branch_factor ∧
    length loglik' = length event_sequences * branch_factor.
Proof.
  intros Hst Hll H. unfold _generate_branches in H.
  apply bind_inv in H as (es' & w0 & Hcopy & H).
  apply bind_inv in H as ([fs' ll'] & w1 & Hrun & H).
  apply ret_inv in H as [[= <- <- <-] <-].
  pose proof (mapM_length _ _ _ _ _ Hcopy) as Hes'.
  rewrite length_py_list_mul in Hes'.
  apply branch_steps_inv in Hrun
    as (sms & Hgen & Hlen & Hall & Hfold & Hfs' & Hll');
    [|rewrite length_np_tile; congruence..].
  exists w0, sms. rewrite Hes' in Hall, Hfs', Hll'. done.
Qed.

(** ** Accumulated log-likelihoods *)

Lemma lookup_np_tile {A} (a : list A) n j x :
  np_tile a n !! j = Some x → a !! (j `mod` length a) = Some x.
Proof.
  unfold np_tile. revert j. induction n as [|n IH]; intros j; simpl; [done|].
  destruct (decide (j < length a)) as [Hlt|Hge].
  - rewrite lookup_app_l by done. by rewrite Nat.mod_small.
  - rewrite lookup_app_r by lia. intros H.
    pose proof (lookup_lt_Some _ _ _ H) as Hlt.
    fold (py_list_mul a n) in Hlt. rewrite length_py_list_mul in Hlt.
    apply IH in H. rewrite <-H. f_equal.
    replace j with ((j - length a) + 1 * length a) at 1 by lia.
    by rewrite Nat.Div0.mod_add.
Qed.

Lemma lookup_accumulated (softmaxes : list (list R)) (acc : list R) j a' :
  foldl (λ acc softmax, zip_with Rplus acc (ln <$> softmax)) acc softmaxes
    !! j = Some a' →
  ∃ a ps, acc !! j = Some a ∧
    Forall2 (λ softmax p, softmax !! j = Some p) softmaxes ps ∧
    a' = foldl (λ x p, (x + ln p)%R) a ps.
Proof.
  revert acc. induction softmaxes as [|sm sms IH]; intros acc H; simpl in H.
  - exists a', []. split; [done|]. split; [apply Forall2_nil_2|done].
  - apply IH in H as (a1 & ps & Ha1 & Hps & ->).
    apply lookup_zip_with_Some in Ha1 as (a & y & -> & Ha & Hy).
    rewrite list_lookup_fmap in Hy.
    destruct (sm !! j) as [p|] eqn:Hp; [|done]. injection Hy as <-.
    exists a, (p :: ps). split; [done|]. split; [by constructor|done].
Qed.

Lemma fold_ln_sum (a : R) ps :
  foldl (λ x p, (x + ln p)%R) a ps = (a + Rsum (ln <$> ps))%R.
Proof.
  revert a. induction ps as [|p ps IH]; intros a; simpl.
  - unfold Rsum. simpl. lra.
  - rewrite IH. unfold Rsum. simpl. apply Rplus_assoc.
Qed.

Lemma ln_nonpos p : (0 < p <= 1)%R → (ln p <= 0)%R.
Proof.
  intros [Hpos [Hlt| ->]]; [|rewrite ln_1; lra].
  pose proof (ln_increasing p 1 Hpos Hlt) as H. rewrite ln_1 in H. lra.
Qed.

Lemma fold_ln_step (a : R) ps t :
  Forall (λ p, (0 < p <= 1)%R) ps →
  (foldl (λ x p, (x + ln p)%R) a (take (S t) ps)
   <= foldl (λ x p, (x + ln p)%R) a (take t ps))%R.
Proof.
  intros Hps. destruct (ps !! t) as [p|] eqn:Hp.
  - erewrite take_S_r by done. rewrite foldl_snoc.
    pose proof (ln_nonpos p) as Hln.
    apply list_elem_of_lookup_2 in Hp.
    specialize (Hln (proj1 (Forall_forall _ _) Hps p Hp)). lra.
  - apply lookup_ge_None in Hp. rewrite !take_ge by lia. lra.
Qed.

Lemma fold_ln_nonincreasing (a : R) ps :
  Forall (λ p, (0 < p <= 1)%R) ps →
  (foldl (λ x p, (x + ln p)%R) a ps <= a)%R.
Proof.
  intros Hps. revert a.
  induction Hps as [|p ps Hp _ IH]; intros a; simpl; [lra|].
  pose proof (ln_nonpos p Hp). specialize (IH (a + ln p)%R). lra.
Qed.

(** C7: [beam_init] sets every log-likelihood to 0.  After a branching pass
    on aligned arrays, the log-likelihood of candidate [j] is that of its
    parent, candidate [j mod M] of the beam before, to which the natural
    logarithm of the probability chosen for [j] was added at each of the
    [num_steps] calls of [_generate_step]: it is the parent's plus the sum of
    these logarithms; and when the chosen probabilities lie in (0, 1], every
    step leaves it at most what it was. *)
Theorem loglik_accumulation self :
  (∀ events num_steps beam_size steps_per_iteration w
     event_sequences loglik first inputs initial_state w',
     beam_init self events num_steps beam_size steps_per_iteration w
     = Return (event_sequences, loglik, first, inputs, initial_state) w' →
     loglik = replicate beam_size 0%R) ∧
  (∀ event_sequences loglik branch_factor num_steps inputs initial_state
     temperature w event_sequences' final_state' loglik' w',
     length initial_state = length event_sequences →
     length loglik = length event_sequences →
     _generate_branches self event_sequences loglik branch_factor num_steps
                        inputs initial_state temperature w
     = Return (event_sequences', final_state', loglik') w' →
     ∃ w0 softmaxes,
       mapM deepcopy (py_list_mul event_sequences branch_factor) w
       = Return event_sequences' w0 ∧
       generated_steps self event_sequences'
                       (py_list_mul inputs branch_factor) temperature
                       (np_tile initial_state branch_factor) w0
                       softmaxes final_state' w' ∧
       length softmaxes = Z.to_nat num_steps ∧
       ∀ j a', loglik' !! j = Some a' →
         ∃ a ps,
           loglik !! (j `mod` length event_sequences) = Some a ∧
           Forall2 (λ softmax p, softmax !! j = Some p) softmaxes ps ∧
           a' = foldl (λ x p, (x + ln p)%R) a ps ∧
           a' = (a + Rsum (ln <$> ps))%R ∧
           (Forall (λ p, (0 < p <= 1)%R) ps →
            (∀ t, (foldl (λ x p, (x + ln p)%R) a (take (S t) ps)
                   <= foldl (λ x p, (x + ln p)%R) a (take t ps))%R) ∧
            (a' <= a)%R)).
Proof.
  split.
  - intros events num_steps beam_size spi w es ll first inputs st w' H.
    unfold beam_init in H.
    apply bind_inv in H as (? & ? & _ & H).
    apply bind_inv in H as (? & ? & _ & H).
    apply bind_inv in H as (? & ? & _ & H).
    apply bind_inv in H as (? & ? & _ & H).
    by apply ret_inv in H as [[= _ <- _ _ _] _].
  - intros es ll bf n inputs st T w es' fs' ll' w' Hst Hll H.
    apply generate_branches_inv in H
      as (w0 & sms & Hcopy & Hgen & Hlen & _ & Hfold & _); [|done..].
    exists w0, sms. split; [done|]. split; [done|]. split; [done|].
    intros j a' Ha'. rewrite Hfold in Ha'.
    apply lookup_accumulated in Ha' as (a & ps & Ha & Hps & ->).
    apply lookup_np_tile in Ha. rewrite Hll in Ha.
    exists a, ps. split; [done|]. split; [done|]. split; [done|].
    split; [apply fold_ln_sum|].
    intros Hrange. split.
    + intros t. by apply fold_ln_step.
    + by apply fold_ln_nonincreasing.
Qed.

(** ** Generation *)

(** C1, as amended: for a model built by the constructor, collaborators that
    keep their contract, a primer of length at least 1 and less than the
    target length, and a beam size, a branch factor and a number of steps per
    iteration that are all at least 1, [_generate_events] returns a sequence
    whose length is the target length and whose first events are the primer;
    it does so by calling [_beam_search] with the target length minus the
    length of the primer; and the primer object itself is left as it was. *)
Theorem generate_events_length config num_steps primer_events primer
    temperature beam_size branch_factor steps_per_iteration w :
  collaborators_ok (__init__ config) →
  heap w !! primer_events = Some primer →
  1 ≤ length primer →
  (Z.of_nat (length primer) < num_steps)%Z →
  1 ≤ beam_size → 1 ≤ branch_factor → (1 ≤ steps_per_iteration)%Z →
  ∃ r result w',
    _generate_events (__init__ config) num_steps primer_events temperature
                     beam_size branch_factor steps_per_iteration w
    = Return r w' ∧
    heap w' !! r = Some result ∧
    Z.of_nat (length result) = num_steps ∧
    take (length primer) result = primer ∧
    _generate_events (__init__ config) num_steps primer_events temperature
                     beam_size branch_factor steps_per_iteration w
    = _beam_search (__init__ config) primer_events
                   (num_steps - Z.of_nat (length primer)) temperature
                   beam_size branch_factor steps_per_iteration w ∧
    heap w' !! primer_events = Some primer.
Proof.
  intros Hok Hprimer Hlen Hlt Hbeam Hbf Hspi.
  destruct (beam_search_run (__init__ config) primer primer_events
              (num_steps - Z.of_nat (length primer)) temperature beam_size
              branch_factor steps_per_iteration w eq_refl Hok Hprimer)
    as (r & suffix & w' & Hrun & Hr & Hsuffix & Hold & _); [lia|done..|].
  assert (_generate_events (__init__ config) num_steps primer_events
            temperature beam_size branch_factor steps_per_iteration w
          = _beam_search (__init__ config) primer_events
              (num_steps - Z.of_nat (length primer)) temperature
              beam_size branch_factor steps_per_iteration w) as Heq.
  { unfold _generate_events. erewrite bind_Return; [|reflexivity].
    rewrite Hprimer. change (default [] (Some primer)) with primer.
    destruct (length primer =? 0) eqn:E0; [apply Nat.eqb_eq in E0; lia|].
    destruct (Z.leb_spec num_steps (Z.of_nat (length primer))); [lia|].
    destruct (Z.ltb_spec (Z.of_nat (length primer)) num_steps);
      [reflexivity|lia]. }
  exists r, (primer ++ suffix), w'. rewrite Heq.
  split; [done|]. split; [done|]. split; [rewrite length_app; lia|].
  split; [by rewrite take_app_length|]. split; [done|].
  rewrite Hold; [done|]. by eapply lookup_lt_Some.
Qed.

(** C3: for [num_steps ≥ 1] and [steps_per_iteration ≥ 1] the first
    branching takes [(num_steps - 1) mod steps_per_iteration + 1] steps,
    between 1 and [steps_per_iteration]; what remains is an exact multiple
    of [steps_per_iteration], so the division that gives the number of
    iterations leaves no remainder; and the steps of the first branching
    plus [steps_per_iteration] for each iteration are [num_steps], also as
    the loop counts that [range] sees.  Accordingly a run of [_beam_search]
    extends the returned sequence by exactly [num_steps] events and makes
    one session call per step and sequence of the branched population. *)
Theorem beam_search_step_split (num_steps steps_per_iteration : Z) :
  (1 ≤ num_steps)%Z → (1 ≤ steps_per_iteration)%Z →
  (∀ w, ∃ first iterations,
     first_iteration_num_steps num_steps steps_per_iteration w
     = Return first w ∧
     num_iterations num_steps first steps_per_iteration w
     = Return iterations w ∧
     first = ((num_steps - 1) `mod` steps_per_iteration + 1)%Z ∧
     (1 ≤ first ≤ steps_per_iteration)%Z ∧
     ((num_steps - first) `mod` steps_per_iteration = 0)%Z ∧
     (0 ≤ iterations)%Z ∧
     (iterations * steps_per_iteration = num_steps - first)%Z ∧
     (first + iterations * steps_per_iteration = num_steps)%Z ∧
     Z.to_nat first + Z.to_nat iterations * Z.to_nat steps_per_iteration
     = Z.to_nat num_steps) ∧
  (∀ self primer events temperature beam_size branch_factor w,
     batch_size (hparams (_config self)) = 1 →
     collaborators_ok self →
     heap w !! events = Some primer →
     1 ≤ beam_size → 1 ≤ branch_factor →
     ∃ r suffix w',
       _beam_search self events num_steps temperature beam_size
                    branch_factor steps_per_iteration w = Return r w' ∧
       heap w' !! r = Some (primer ++ suffix) ∧
       length suffix = Z.to_nat num_steps ∧
       length (session_log w')
       = length (session_log w) + 1
         + Z.to_nat num_steps * (beam_size * branch_factor)).
Proof.
  intros Hn Hspi. split.
  - intros w.
    destruct (steps_split num_steps steps_per_iteration Hn Hspi)
      as (Hfirst & Hmod & Hit & Hsum & Hnat).
    eexists _, _.
    unfold first_iteration_num_steps, num_iterations, py_mod, py_div.
    destruct (Z.eqb_spec steps_per_iteration 0) as [|_]; [lia|].
    split; [reflexivity|]. split; [reflexivity|]. split; [reflexivity|].
    repeat (split; [done || lia|]). done.
  - intros self primer events temperature beam_size branch_factor w Hb Hok
      Hprimer Hbeam Hbf.
    destruct (beam_search_run self primer events num_steps temperature
                beam_size branch_factor steps_per_iteration w Hb Hok Hprimer
                Hn Hbeam Hbf Hspi)
      as (r & suffix & w' & Hrun & Hr & Hlen & _ & Hlog).
    by exists r, suffix, w'.
Qed.

(** C6: for a beam size and a branch factor of at least 1: whenever
    [_generate_branches] returns on an aligned beam of [M] candidates, it
    returns [M * branch_factor] sequences, state rows and log-likelihoods;
    pruning an aligned population of [beam_size * branch_factor] to
    [beam_size] returns exactly [beam_size] of each; every run of the
    loop of [_beam_search] that starts from an aligned population of
    [beam_size * branch_factor] ends with one of that size, each iteration
    going through [beam_size] after its prune and back to
    [beam_size * branch_factor] after its branching.  With a batch size of 1
    and collaborators that keep their contract the branching and the loop do
    return on the populations of a beam search. *)
Theorem population_sizes self beam_size branch_factor :
  1 ≤ beam_size → 1 ≤ branch_factor →
  (∀ event_sequences loglik num_steps inputs initial_state temperature w
     event_sequences' final_state' loglik' w',
     length initial_state = length event_sequences →
     length loglik = length event_sequences →
     _generate_branches self event_sequences loglik branch_factor num_steps
                        inputs initial_state temperature w
     = Return (event_sequences', final_state', loglik') w' →
     length event_sequences' = length event_sequences * branch_factor ∧
     length final_state' = length event_sequences * branch_factor ∧
     length loglik' = length event_sequences * branch_factor) ∧
  (∀ event_sequences final_state loglik w,
     length event_sequences = beam_size * branch_factor →
     length final_state = beam_size * branch_factor →
     length loglik = beam_size * branch_factor →
     ∃ event_sequences' final_state' loglik',
       _prune_branches self event_sequences final_state loglik beam_size w
       = Return (event_sequences', final_state', loglik') w ∧
       length event_sequences' = beam_size ∧
       length final_state' = beam_size ∧
       length loglik' = beam_size) ∧
  (∀ n event_sequences final_state loglik temperature steps_per_iteration w
     event_sequences' final_state' loglik' w',
     length event_sequences = beam_size * branch_factor →
     length final_state = beam_size * branch_factor →
     length loglik = beam_size * branch_factor →
     beam_iterations self n event_sequences final_state loglik temperature
                     beam_size branch_factor steps_per_iteration w
     = Return (event_sequences', final_state', loglik') w' →
     length event_sequences' = beam_size * branch_factor ∧
     length final_state' = beam_size * branch_factor ∧
     length loglik' = beam_size * branch_factor) ∧
  (batch_size (hparams (_config self)) = 1 → collaborators_ok self →
   (∀ primer t event_sequences loglik num_steps inputs initial_state
      temperature w,
      population_of primer t (heap w) event_sequences →
      length inputs = length event_sequences →
      length initial_state = length event_sequences →
      length loglik = length event_sequences →
      ∃ result w',
        _generate_branches self event_sequences loglik branch_factor
                           num_steps inputs initial_state temperature w
        = Return result w') ∧
   (∀ primer t n event_sequences final_state loglik temperature
      steps_per_iteration w,
      population_of primer t (heap w) event_sequences →
      length event_sequences = beam_size * branch_factor →
      length final_state = beam_size * branch_factor →
      length loglik = beam_size * branch_factor →
      ∃ result w',
        beam_iterations self n event_sequences final_state loglik
                        temperature beam_size branch_factor
                        steps_per_iteration w
        = Return result w')).
Proof.
  intros Hbeam Hbf.
  assert (∀ event_sequences final_state loglik w,
     length event_sequences = beam_size * branch_factor →
     length final_state = beam_size * branch_factor →
     length loglik = beam_size * branch_factor →
     ∃ event_sequences' final_state' loglik',
       _prune_branches self event_sequences final_state loglik beam_size w
       = Return (event_sequences', final_state', loglik') w ∧
       length event_sequences' = beam_size ∧
       length final_state' = beam_size ∧
       length loglik' = beam_size) as Hprune.
  { intros es fs ll w Hes Hfs Hll.
    destruct (prune_branches_spec self es fs ll beam_size w)
      as (indices & es' & fs' & ll' & Hrun & Hes' & Hfs' & Hll' & Hlen & _);
      [congruence..|].
    assert (length indices = beam_size) as Hidx by (rewrite Hlen, Hes; nia).
    exists es', fs', ll'. split; [done|].
    rewrite <-(Forall2_length _ _ _ Hes'), <-(Forall2_length _ _ _ Hfs'),
      <-(Forall2_length _ _ _ Hll'). done. }
  assert (∀ event_sequences loglik num_steps inputs initial_state temperature
            w event_sequences' final_state' loglik' w',
     length initial_state = length event_sequences →
     length loglik = length event_sequences →
     _generate_branches self event_sequences loglik branch_factor num_steps
                        inputs initial_state temperature w
     = Return (event_sequences', final_state', loglik') w' →
     length event_sequences' = length event_sequences * branch_factor ∧
     length final_state' = length event_sequences * branch_factor ∧
     length loglik' = length event_sequences * branch_factor) as Hbranch.
  { intros es ll n inputs st T w es' fs' ll' w' Hst Hll H.
    apply generate_branches_inv in H
      as (_ & _ & _ & _ & _ & _ & _ & ? & ? & ?); done. }
  split; [exact Hbranch|]. split; [exact Hprune|]. split.
  - intros n. induction n as [|n IH];
      intros es fs ll T spi w es' fs' ll' w' Hes Hfs Hll H; simpl in H.
    + by apply ret_inv in H as [[= <- <- <-] _].
    + destruct (Hprune es fs ll w Hes Hfs Hll)
        as (es1 & fs1 & ll1 & Hrun1 & Hes1 & Hfs1 & Hll1).
      erewrite bind_Return in H by exact Hrun1. cbv beta iota in H.
      erewrite bind_Return in H by apply get_inputs_batch_run.
      apply bind_inv in H as ([[es2 fs2] ll2] & w2 & Hrun2 & H).
      apply Hbranch in Hrun2 as (Hes2 & Hfs2 & Hll2); [|congruence..].
      rewrite Hes1 in Hes2, Hfs2, Hll2. by eapply IH.
  - intros Hb Hok. split.
    + intros primer t es ll n inputs st T w Hpop Hin Hst Hll.
      destruct (generate_branches_one self primer t es ll branch_factor n
                  inputs st T w Hb Hok Hpop Hin Hst Hll)
        as (es' & fs' & ll' & w' & Hrun & _).
      by exists (es', fs', ll'), w'.
    + intros primer t n es fs ll T spi w Hpop Hes Hfs Hll.
      destruct (beam_iterations_one self primer t n es fs ll T beam_size
                  branch_factor spi w Hb Hok Hbf Hpop Hes Hfs Hll)
        as (es' & fs' & ll' & w' & Hrun & _).
      by exists (es', fs', ll'), w'.
Qed.

(** * Further properties *)

(** ** Which exceptions can be raised *)

Local Abbreviation Mw := (@M event input_vec state_row rng).

Lemma bind_Raise_inv {A B} (m : M A) (k : A → M B) w e w' :
  (m ≫= k) w = Raise e w' →
  m w = Raise e w' ∨ ∃ a w1, m w = Return a w1 ∧ k a w1 = Raise e w'.
Proof.
  unfold mbind, M_bind. destruct (m w) as [a w1|e1 w1]; [by eauto|].
  intros [= -> ->]. by left.
Qed.

Lemma raises_only_weaken {A} (P Q : exn → Prop) (m : Mw A) :
  (∀ e, P e → Q e) → raises_only P m → raises_only Q m.
Proof. intros HPQ Hm w e w' H. by eapply HPQ, Hm. Qed.

Lemma raises_only_ret {A} P (a : A) : raises_only P (mret a : Mw A).
Proof. by intros w e w' H. Qed.

Lemma raises_only_raise {A} (P : exn → Prop) e :
  P e → raises_only P (raise e : Mw A).
Proof. intros He w e' w' [= <- _]. done. Qed.

Lemma raises_only_bind_ret {A B} P (m : Mw A) (k : A → Mw B) :
  raises_only P m →
  (∀ a w w1, m w = Return a w1 → ∀ e w', k a w1 = Raise e w' → P e) →
  raises_only P (m ≫= k).
Proof.
  intros Hm Hk w e w' [H|(a & w1 & Ha & H)]%bind_Raise_inv.
  - by eapply Hm.
  - by eapply Hk.
Qed.

Lemma raises_only_bind {A B} P (m : Mw A) (k : A → Mw B) :
  raises_only P m → (∀ a, raises_only P (k a)) → raises_only P (m ≫= k).
Proof.
  intros Hm Hk. apply raises_only_bind_ret; [done|].
  intros a w w1 _ e w' H. by eapply Hk.
Qed.

Lemma raises_only_mapM {A B} P (f : A → Mw B) l :
  (∀ x, raises_only P (f x)) → raises_only P (mapM f l).
Proof.
  intros Hf. induction l as [|x l IH]; simpl; [apply raises_only_ret|].
  apply raises_only_bind; [done|]. intros y.
  apply raises_only_bind; [done|]. intros ys. apply raises_only_ret.
Qed.

Lemma py_getitem_raises {A} (l : list A) i :
  raises_only (λ e, e = IndexError) (py_getitem l i : Mw A).
Proof.
  unfold py_getitem. destruct (l !! i); [apply raises_only_ret|].
  by apply raises_only_raise.
Qed.

Lemma py_last_raises {A} (l : list A) :
  raises_only (λ e, e = IndexError) (py_last l : Mw A).
Proof.
  unfold py_last. destruct (list.last l); [apply raises_only_ret|].
  by apply raises_only_raise.
Qed.

Lemma py_getitems_raises {A} (l : list A) idx :
  raises_only (λ e, e = IndexError) (py_getitems l idx : Mw (list A)).
Proof. apply raises_only_mapM. intros i. apply py_getitem_raises. Qed.

Lemma np_broadcast_raises {A} n (v : list A) :
  raises_only (λ e, e = ValueError) (np_broadcast n v : Mw (list A)).
Proof.
  unfold np_broadcast. destruct (length v =? n); [apply raises_only_ret|].
  destruct v as [|x [|? ?]];
    (apply raises_only_ret || by apply raises_only_raise).
Qed.

Lemma np_setitems_raises {A} (a : list A) idx v :
  raises_only (λ e, e = IndexError ∨ e = ValueError)
              (np_setitems a idx v : Mw (list A)).
Proof.
  unfold np_setitems. destruct (forallb _ idx);
    [|apply raises_only_raise; by left].
  apply raises_only_bind.
  - eapply raises_only_weaken; [|apply np_broadcast_raises]. by right.
  - intros vs. apply raises_only_ret.
Qed.

Lemma np_iadd_raises (a b : list R) :
  raises_only (λ e, e = ValueError) (np_iadd a b : Mw (list R)).
Proof.
  unfold np_iadd. apply raises_only_bind; [apply np_broadcast_raises|].
  intros bs. apply raises_only_ret.
Qed.

Lemma np_chosen_raises softmax n indices :
  raises_only (λ e, e = IndexError ∨ e = ValueError)
              (np_chosen softmax n indices : Mw (list R)).
Proof.
  unfold np_chosen. apply raises_only_bind.
  - eapply raises_only_weaken; [|apply np_broadcast_raises]. by right.
  - intros idx. eapply raises_only_weaken; [intros e He; left; exact He|].
    apply raises_only_mapM. intros [i c].
    apply raises_only_bind; [apply py_getitem_raises|]. intros row.
    apply raises_only_bind; [apply py_last_raises|]. intros dist.
    apply py_getitem_raises.
Qed.

Lemma extend_event_sequences_raises ed event_sequences softmax :
  raises_only (λ e, e = IndexError)
              (extend_event_sequences ed event_sequences softmax : Mw _).
Proof.
  revert softmax. induction event_sequences as [|r rs IH]; intros softmax;
    simpl; [apply raises_only_ret|].
  apply raises_only_bind; [apply py_getitem_raises|]. intros row.
  apply raises_only_bind; [apply py_last_raises|]. intros dist.
  apply raises_only_bind; [by intros w e w' H|]. intros events.
  apply raises_only_bind.
  { intros w e w' H. by destruct (choose_event _ _ _ _) as [[? ?] ?]. }
  intros [c e0]. apply raises_only_bind; [by intros w e w' H|]. intros _.
  apply raises_only_bind; [apply IH|]. intros cs. apply raises_only_ret.
Qed.

(** A batch of the right size passes the assertion. *)
Lemma generate_step_for_batch_raises self event_sequences inputs
    initial_state temperature :
  length event_sequences = batch_size (hparams (_config self)) →
  raises_only (λ e, e = IndexError ∨ e = ValueError)
    (_generate_step_for_batch self event_sequences inputs initial_state
                              temperature).
Proof.
  intros Hlen. unfold _generate_step_for_batch.
  apply Nat.eqb_eq in Hlen. rewrite Hlen.
  apply raises_only_bind; [apply raises_only_ret|]. intros _.
  apply raises_only_bind; [by intros w e w' H|]. intros [fs sm].
  apply raises_only_bind.
  { eapply raises_only_weaken; [|apply extend_event_sequences_raises].
    by left. }
  intros indices. apply raises_only_bind; [apply np_chosen_raises|].
  intros chosen. apply raises_only_ret.
Qed.

Lemma full_batches_raises self n event_sequences inputs initial_state
    temperature offset final_state softmax :
  raises_only (λ e, e = IndexError ∨ e = ValueError)
    (full_batches self n event_sequences inputs initial_state temperature
                  offset final_state softmax).
Proof.
  revert offset final_state softmax.
  induction n as [|n IH]; intros offset fs sm; simpl;
    [apply raises_only_ret|].
  apply raises_only_bind_ret.
  { eapply raises_only_weaken; [|apply py_getitems_raises]. by left. }
  intros batch w w1 Hbatch. revert w1 Hbatch.
  intros w1 [Hbatch _]%py_getitems_inv.
  apply Forall2_length in Hbatch. unfold py_range in Hbatch.
  rewrite length_seq in Hbatch.
  assert (length batch = batch_size (hparams (_config self))) as Hlen by lia.
  revert w1. change (raises_only (λ e, e = IndexError ∨ e = ValueError)
    (batch_inputs ← py_getitems inputs
        (py_range offset (offset + batch_size (hparams (_config self))));
     batch_state ← py_getitems initial_state
        (py_range offset (offset + batch_size (hparams (_config self))));
     '(batch_final_state, batch_softmax) ←
        _generate_step_for_batch self batch batch_inputs batch_state
                                 temperature;
     final_state ← np_setitems fs
        (py_range offset (offset + batch_size (hparams (_config self))))
        batch_final_state;
     softmax ← np_setitems sm
        (py_range offset (offset + batch_size (hparams (_config self))))
        batch_softmax;
     full_batches self n event_sequences inputs initial_state temperature
        (offset + batch_size (hparams (_config self))) final_state softmax)).
  apply raises_only_bind.
  { eapply raises_only_weaken; [|apply py_getitems_raises]. by left. }
  intros batch_inputs. apply raises_only_bind.
  { eapply raises_only_weaken; [|apply py_getitems_raises]. by left. }
  intros batch_state. apply raises_only_bind;
    [by apply generate_step_for_batch_raises|].
  intros [bfs bsm]. apply raises_only_bind; [apply np_setitems_raises|].
  intros fs1. apply raises_only_bind; [apply np_setitems_raises|].
  intros sm1. apply IH.
Qed.

Lemma pad_batch_raises self event_sequences inputs initial_state temperature
    offset final_state softmax :
  raises_only (λ e, e = IndexError ∨ e = TypeError)
    (pad_batch self event_sequences inputs initial_state temperature
               offset final_state softmax : Mw _).
Proof.
  unfold pad_batch.
  apply raises_only_bind.
  { eapply raises_only_weaken; [|apply py_getitems_raises]. by left. }
  intros real. apply raises_only_bind.
  { eapply raises_only_weaken; [intros e He; left; exact He|].
    apply raises_only_mapM. intros _.
    apply raises_only_bind; [apply py_last_raises|]. by intros r w e w' H. }
  intros copies. apply raises_only_bind.
  { eapply raises_only_weaken; [|apply py_getitems_raises]. by left. }
  intros real_inputs. apply raises_only_bind.
  { eapply raises_only_weaken; [|apply py_last_raises]. by left. }
  intros last_input. apply raises_only_bind.
  { eapply raises_only_weaken; [|apply py_getitems_raises]. by left. }
  intros real_state. apply raises_only_raise. by right.
Qed.

(** What [_generate_step] can raise. *)
Lemma generate_step_raises self event_sequences inputs initial_state
    temperature w :
  (batch_size (hparams (_config self)) = 0 →
   _generate_step self event_sequences inputs initial_state temperature w
   = Raise ZeroDivisionError w) ∧
  ∀ e w',
    _generate_step self event_sequences inputs initial_state temperature w
    = Raise e w' →
    (e = ZeroDivisionError ∧ batch_size (hparams (_config self)) = 0 ∧ w' = w)
    ∨ e = IndexError ∨ e = ValueError
    ∨ (e = TypeError ∧
       length event_sequences `mod` batch_size (hparams (_config self)) ≠ 0).
Proof.
  unfold _generate_step, py_floordiv.
  set (b := batch_size (hparams (_config self))).
  set (N := length event_sequences).
  split.
  { intros ->. done. }
  intros e w' H. destruct (b =? 0) eqn:Eb.
  { apply Nat.eqb_eq in Eb. injection H as <- <-. by left. }
  apply Nat.eqb_neq in Eb. right.
  erewrite bind_Return in H by reflexivity.
  apply bind_Raise_inv in H as [H|([[offset fs] sm] & w1 & Hfull & H)].
  { apply full_batches_raises in H as [->| ->]; [by left|by right; left]. }
  apply full_batches_offset in Hfull. fold b in Hfull.
  destruct (offset <? N) eqn:Hlt; [|done].
  apply Nat.ltb_lt in Hlt.
  apply pad_batch_raises in H as [->| ->]; [by left|]. right; right.
  split; [done|]. intros Hmod.
  pose proof (Nat.div_mod_eq N b). nia.
Qed.

(** X1: [_generate_step] raises [ZeroDivisionError], with nothing done, when
    the batch size is 0; whatever it raises is that (and then the batch size
    is 0), [IndexError], [ValueError], or [TypeError] (and then the number of
    sequences is not a multiple of the batch size).  It never ends in
    [AssertionError]: every batch it hands to [_generate_step_for_batch] has
    the size that the assertion there asks for. *)
Theorem generate_step_exceptions self event_sequences inputs initial_state
    temperature w :
  (batch_size (hparams (_config self)) = 0 →
   _generate_step self event_sequences inputs initial_state temperature w
   = Raise ZeroDivisionError w) ∧
  ∀ e w',
    _generate_step self event_sequences inputs initial_state temperature w
    = Raise e w' →
    (e = ZeroDivisionError ∧ batch_size (hparams (_config self)) = 0 ∧ w' = w)
    ∨ e = IndexError ∨ e = ValueError
    ∨ (e = TypeError ∧
       length event_sequences `mod` batch_size (hparams (_config self)) ≠ 0).
Proof. apply generate_step_raises. Qed.

Lemma generate_step_builtin self event_sequences inputs initial_state
    temperature :
  raises_only builtin_exception
    (_generate_step self event_sequences inputs initial_state temperature
     : Mw _).
Proof.
  intros w e w' H.
  destruct (generate_step_raises self event_sequences inputs initial_state
              temperature w) as [_ Hex].
  by destruct (Hex e w' H) as [(-> & _)|[->|[->|[-> _]]]].
Qed.

Lemma deepcopy_never_raises r : raises_only (λ _, False) (deepcopy r : Mw _).
Proof. by intros w e w' H. Qed.

Lemma branch_steps_builtin self n event_sequences inputs state loglik
    temperature :
  raises_only builtin_exception
    (branch_steps self n event_sequences inputs state loglik temperature
     : Mw _).
Proof.
  revert state loglik. induction n as [|n IH]; intros state loglik; simpl;
    [apply raises_only_ret|].
  apply raises_only_bind; [apply generate_step_builtin|]. intros [st sm].
  apply raises_only_bind; [|intros ll; apply IH].
  eapply raises_only_weaken; [|apply np_iadd_raises]. by intros e ->.
Qed.

Lemma generate_branches_builtin self event_sequences loglik branch_factor
    num_steps inputs initial_state temperature :
  raises_only builtin_exception
    (_generate_branches self event_sequences loglik branch_factor num_steps
                        inputs initial_state temperature : Mw _).
Proof.
  unfold _generate_branches. apply raises_only_bind.
  { eapply raises_only_weaken; [|apply raises_only_mapM, deepcopy_never_raises].
    done. }
  intros es. apply raises_only_bind; [apply branch_steps_builtin|].
  intros [fs ll]. apply raises_only_ret.
Qed.

Lemma prune_branches_raises self event_sequences final_state loglik k :
  raises_only (λ e, e = IndexError)
    (_prune_branches self event_sequences final_state loglik k : Mw _).
Proof.
  unfold _prune_branches, nlargest. apply raises_only_bind.
  { destruct (k =? 0); [apply raises_only_ret|].
    apply raises_only_bind; [|intros d; apply raises_only_ret].
    apply raises_only_mapM. intros i.
    apply raises_only_bind; [apply py_getitem_raises|].
    intros a. apply raises_only_ret. }
  intros indices. apply raises_only_bind; [apply py_getitems_raises|].
  intros es. apply raises_only_bind; [apply py_getitems_raises|].
  intros fs. apply raises_only_bind; [apply py_getitems_raises|].
  intros ll. apply raises_only_ret.
Qed.

Lemma get_inputs_batch_never_raises ed event_sequences full_length :
  raises_only (λ _, False)
    (get_inputs_batch ed event_sequences full_length : Mw _).
Proof. intros w e w' H. by rewrite get_inputs_batch_run in H. Qed.

Lemma beam_iterations_builtin self n event_sequences final_state loglik
    temperature beam_size branch_factor steps_per_iteration :
  raises_only builtin_exception
    (beam_iterations self n event_sequences final_state loglik temperature
                     beam_size branch_factor steps_per_iteration : Mw _).
Proof.
  revert event_sequences final_state loglik.
  induction n as [|n IH]; intros es fs ll; simpl; [apply raises_only_ret|].
  apply raises_only_bind.
  { eapply raises_only_weaken; [|apply prune_branches_raises]. by intros e ->. }
  intros [[es1 fs1] ll1]. apply raises_only_bind.
  { eapply raises_only_weaken; [|apply get_inputs_batch_never_raises]. done. }
  intros inputs. apply raises_only_bind; [apply generate_branches_builtin|].
  intros [[es2 fs2] ll2]. apply IH.
Qed.

Lemma beam_search_builtin self events num_steps temperature beam_size
    branch_factor steps_per_iteration :
  raises_only builtin_exception
    (_beam_search self events num_steps temperature beam_size branch_factor
                  steps_per_iteration : Mw _).
Proof.
  unfold _beam_search. apply raises_only_bind.
  { unfold beam_init. apply raises_only_bind.
    { eapply raises_only_weaken;
        [|apply raises_only_mapM; intros _; apply deepcopy_never_raises].
      done. }
    intros es. apply raises_only_bind.
    { unfold first_iteration_num_steps, py_mod.
      apply raises_only_bind; [|intros m; apply raises_only_ret].
      destruct (_ =? _)%Z; [by apply raises_only_raise|apply raises_only_ret]. }
    intros first. apply raises_only_bind.
    { eapply raises_only_weaken; [|apply get_inputs_batch_never_raises]. done. }
    intros inputs. apply raises_only_bind; [by intros w e w' H|].
    intros state. apply raises_only_ret. }
  intros [[[[es ll] first] inputs] st].
  apply raises_only_bind; [apply generate_branches_builtin|].
  intros [[es1 fs1] ll1]. apply raises_only_bind.
  { unfold num_iterations, py_div.
    destruct (_ =? _)%Z; [by apply raises_only_raise|apply raises_only_ret]. }
  intros iterations. apply raises_only_bind; [apply beam_iterations_builtin|].
  intros [[es2 fs2] ll2]. unfold beam_finalize. apply raises_only_bind.
  { eapply raises_only_weaken; [|apply prune_branches_raises]. by intros e ->. }
  intros [[es3 fs3] ll3]. apply raises_only_bind.
  { eapply raises_only_weaken; [|apply py_getitem_raises]. by intros e ->. }
  intros _. eapply raises_only_weaken; [|apply py_getitem_raises].
  by intros e ->.
Qed.

(** X2: [_generate_events] ends in [EventSequenceRnnModelException] exactly
    when the primer is empty, with the first message, or is not empty and
    not shorter than [num_steps], with the second message; the world is then
    as it was.  Nothing that the beam search does raises this exception. *)
Theorem generate_events_model_exception self num_steps primer_events
    temperature beam_size branch_factor steps_per_iteration w msg w' :
  _generate_events self num_steps primer_events temperature beam_size
                   branch_factor steps_per_iteration w
  = Raise (EventSequenceRnnModelException msg) w'
  ↔ w' = w ∧
    ((length (default [] (heap w !! primer_events)) = 0 ∧
      msg = empty_primer_msg) ∨
     (length (default [] (heap w !! primer_events)) ≠ 0 ∧
      (num_steps ≤ Z.of_nat (length (default [] (heap w !! primer_events))))%Z ∧
      msg = primer_too_long_msg)).
Proof.
  unfold _generate_events. erewrite bind_Return; [|reflexivity].
  set (primer := default [] (heap w !! primer_events)).
  destruct (length primer) as [|n] eqn:Hn; simpl Nat.eqb; cbv iota.
  { split.
    - intros [= <- <-]. split; [done|]. by left.
    - intros [-> [[_ ->]|[? _]]]; done. }
  destruct (Z.leb_spec num_steps (Z.of_nat (S n))) as [Hle|Hgt].
  { split.
    - intros [= <- <-]. split; [done|]. right. by split; [|split; [lia|]].
    - intros [-> [[? _]|(_ & _ & ->)]]; done. }
  split.
  - intros H. exfalso.
    destruct (Z.ltb_spec (Z.of_nat (S n)) num_steps); [|done].
    by apply beam_search_builtin in H.
  - intros [_ [[? _]|(_ & ? & _)]]; [done|lia].
Qed.

(** ** One step on a population, with batches of any size *)

Lemma occurrences_cons x rs r :
  occurrences (x :: rs) r = (if decide (x = r) then 1 else 0) + occurrences rs r.
Proof.
  unfold occurrences. rewrite filter_cons. by destruct (decide (x = r)).
Qed.

Lemma occurrences_app rs1 rs2 r :
  occurrences (rs1 ++ rs2) r = occurrences rs1 r + occurrences rs2 r.
Proof. unfold occurrences. by rewrite filter_app, length_app. Qed.

Lemma occurrences_NoDup rs r :
  NoDup rs → occurrences rs r = if decide (r ∈ rs) then 1 else 0.
Proof.
  induction 1 as [|x rs Hx Hnd IH]; [done|].
  rewrite occurrences_cons, IH.
  destruct (decide (x = r)) as [->|Hne].
  - rewrite decide_False by done. by rewrite decide_True by by left.
  - destruct (decide (r ∈ rs)) as [Hr|Hr].
    + by rewrite decide_True by by right.
    + rewrite decide_False; [done|]. by intros [?|?]%elem_of_cons.
Qed.

Lemma extended_by_refl (h : list (list event)) : extended_by (λ _, 0) h h.
Proof.
  split; [done|]. intros r s Hs. exists []. by rewrite app_nil_r.
Qed.

Lemma extended_by_ext (c c' : ref → nat) (h h' : list (list event)) :
  (∀ r, c r = c' r) → extended_by c h h' → extended_by c' h h'.
Proof.
  intros Hc [Hl H]. split; [done|]. intros r s Hs.
  destruct (H r s Hs) as (sfx & Hn & Hs'). exists sfx. by rewrite <-Hc.
Qed.

Lemma extended_by_alter r e (h : list (list event)) :
  extended_by (λ x, if decide (r = x) then 1 else 0) h
              (alter (λ s, s ++ [e]) r h).
Proof.
  split; [by rewrite length_alter|]. intros r' s Hs.
  destruct (decide (r = r')) as [->|Hne].
  - exists [e]. split; [done|]. unfold ref in *.
    by rewrite list_lookup_alter_eq, Hs.
  - exists []. split; [done|]. unfold ref in *.
    rewrite app_nil_r. by rewrite list_lookup_alter_ne.
Qed.

Lemma extended_by_trans (c1 c2 : ref → nat) (h h1 h2 : list (list event)) :
  extended_by c1 h h1 → extended_by c2 h1 h2 →
  extended_by (λ r, c1 r + c2 r) h h2.
Proof.
  intros [Hl1 H1] [Hl2 H2]. split; [congruence|]. intros r s Hs.
  destruct (H1 r s Hs) as (sfx1 & Hn1 & Hs1).
  destruct (H2 r _ Hs1) as (sfx2 & Hn2 & Hs2).
  exists (sfx1 ++ sfx2). rewrite length_app, (assoc (++)). by split; [lia|].
Qed.

Lemma extended_by_NoDup rs (h h' : list (list event)) :
  NoDup rs → extended_by (occurrences rs) h h' → extended 1 rs h h'.
Proof.
  intros Hnd [Hl H]. split; [done|]. intros r s Hs.
  destruct (H r s Hs) as (sfx & Hn & Hs').
  rewrite occurrences_NoDup in Hn by done. unfold ref in *.
  case_decide; [by exists sfx|].
  destruct sfx; [|done]. by rewrite app_nil_r in Hs'.
Qed.

Lemma mapM_pure_exists {A B} (f : A → Mw B) l w :
  Forall (λ x, ∃ y, f x w = Return y w) l →
  ∃ ys, mapM f l w = Return ys w ∧ length ys = length l.
Proof.
  induction 1 as [|x l [y Hy] _ (ys & Hys & Hlen)]; [by exists []|].
  exists (y :: ys). simpl. erewrite bind_Return; [|exact Hy].
  erewrite bind_Return; [|exact Hys]. split; [done|]. by rewrite Hlen.
Qed.

Lemma extend_event_sequences_run ed event_sequences softmax w :
  length event_sequences ≤ length softmax →
  Forall (λ row, ∃ dist, list.last row = Some dist ∧
            ∀ g events, (choose_event ed g events dist).1.1 < length dist)
         softmax →
  ∃ indices w',
    extend_event_sequences ed event_sequences softmax w = Return indices w' ∧
    extended_by (occurrences event_sequences) (heap w) (heap w') ∧
    session_log w' = session_log w ∧
    Forall2 (λ c row, ∃ dist, list.last row = Some dist ∧ c < length dist)
            indices (take (length event_sequences) softmax).
Proof.
  revert softmax w. induction event_sequences as [|r rs IH];
    intros softmax w Hlen Hrows.
  - exists [], w. simpl. split; [done|]. split; [apply extended_by_refl|].
    split; [done|]. rewrite take_0. constructor.
  - destruct softmax as [|row sm]; simpl in Hlen; [lia|].
    apply Forall_cons in Hrows as [(dist & Hlast & Hchoose) Hrows].
    destruct (choose_event ed (sampler w) (default [] (heap w !! r)) dist)
      as [[c e] g] eqn:Hc.
    pose proof (Hchoose (sampler w) (default [] (heap w !! r))) as Hlt.
    rewrite Hc in Hlt. simpl in Hlt.
    set (w1 := World (alter (λ s, s ++ [e]) r (heap w)) g (session_log w)).
    assert (length rs ≤ length sm) as Hle by lia.
    destruct (IH sm w1 Hle Hrows)
      as (cs & w' & Hrun & Hext & Hlog & Hcs).
    exists (c :: cs), w'. split; [|split; [|split]].
    + simpl extend_event_sequences.
      erewrite bind_Return; [|reflexivity].
      unfold py_last at 1. rewrite Hlast.
      erewrite bind_Return; [|reflexivity].
      erewrite bind_Return; [|reflexivity].
      erewrite bind_Return; [|by rewrite Hc].
      cbv beta iota.
      erewrite bind_Return; [|reflexivity]. fold w1. simpl tail.
      erewrite bind_Return; [|exact Hrun]. done.
    + eapply extended_by_ext;
        [|eapply extended_by_trans; [apply (extended_by_alter r e)|exact Hext]].
      intros r'. by rewrite occurrences_cons.
    + done.
    + simpl. constructor; [|done]. by exists dist.
Qed.

Lemma np_chosen_run (softmax : list softmax_row) n indices w :
  length indices = n →
  Forall2 (λ c row, ∃ dist, list.last row = Some dist ∧ c < length dist)
          indices (take n softmax) →
  ∃ ps, np_chosen softmax n indices w = Return ps w ∧ length ps = n.
Proof.
  intros Hlen Hrows. unfold np_chosen, np_broadcast.
  apply Nat.eqb_eq in Hlen as Hlenb. rewrite Hlenb.
  erewrite bind_Return; [|reflexivity].
  match goal with
  | |- ∃ ps, mapM ?f ?l w = _ ∧ _ =>
      destruct (mapM_pure_exists f l w) as (ps & Hps & Hl)
  end.
  - apply Forall_forall. intros [i c] [j Hj]%list_elem_of_lookup.
    apply lookup_zip_Some in Hj as [Hi Hcj]. simpl in *.
    apply lookup_seq in Hi as [-> _].
    destruct (Forall2_lookup_l _ _ _ _ _ Hrows Hcj)
      as (row & Hrow & dist & Hlast & Hlt).
    apply lookup_take_Some in Hrow as [Hrow _].
    apply lookup_lt_is_Some in Hlt as [p Hp]. exists p.
    erewrite bind_Return; [|by apply py_getitem_Some].
    unfold py_last. rewrite Hlast.
    erewrite bind_Return; [|reflexivity]. by apply py_getitem_Some.
  - exists ps. split; [done|].
    rewrite Hl, length_zip. unfold py_range. rewrite length_seq. lia.
Qed.

(** A batch of distinct sequences, of the size that the assertion asks for,
    with collaborators that keep their contract. *)
Lemma generate_step_for_batch_run self event_sequences inputs initial_state
    temperature w :
  length event_sequences = batch_size (hparams (_config self)) →
  length initial_state = batch_size (hparams (_config self)) →
  collaborators_ok self →
  ∃ ps w',
    _generate_step_for_batch self event_sequences inputs initial_state
                             temperature w
    = Return ((run_step session inputs initial_state
                        (fed_temperature temperature)).1, ps) w' ∧
    length (run_step session inputs initial_state
                     (fed_temperature temperature)).1
    = batch_size (hparams (_config self)) ∧
    length ps = batch_size (hparams (_config self)) ∧
    extended_by (occurrences event_sequences) (heap w) (heap w') ∧
    session_log w'
    = session_log w
      ++ [FetchStep inputs initial_state (fed_temperature temperature)].
Proof.
  intros Hes Hst [_ Hok].
  specialize (Hok inputs initial_state (fed_temperature temperature)).
  destruct (run_step session inputs initial_state
              (fed_temperature temperature)) as [fs sm] eqn:Hrun.
  destruct Hok as (Hfs & Hsm & Hrows).
  set (w1 := World (heap w) (sampler w)
               (session_log w
                ++ [FetchStep inputs initial_state
                              (fed_temperature temperature)])).
  assert (length event_sequences ≤ length sm) as Hle by lia.
  destruct (extend_event_sequences_run (encoder_decoder (_config self))
              event_sequences sm w1 Hle Hrows)
    as (cs & w2 & Hext_run & Hext & Hlog & Hcs).
  destruct (np_chosen_run sm (length event_sequences) cs w2) as (ps & Hps & Hl).
  { rewrite (Forall2_length _ _ _ Hcs). by apply length_take_le. }
  { done. }
  exists ps, w2. split; [|split; [|split; [|split]]].
  - unfold _generate_step_for_batch.
    apply Nat.eqb_eq in Hes as Hesb. rewrite Hesb.
    erewrite bind_Return; [|reflexivity].
    erewrite bind_Return;
      [|unfold session_run_step; fold (fed_temperature temperature);
        rewrite Hrun; reflexivity].
    cbv beta iota. fold w1.
    erewrite bind_Return; [|exact Hext_run].
    erewrite bind_Return; [|exact Hps]. done.
  - simpl. lia.
  - lia.
  - done.
  - by rewrite Hlog.
Qed.

Lemma py_range_add o b : py_range o (o + b) = seq o b.
Proof. unfold py_range. by replace (o + b - o) with b by lia. Qed.

Lemma foldl_insert_seq {A} (a : list A) o v :
  o + length v ≤ length a →
  foldl (λ acc '(i, x), <[i:=x]> acc) a (zip (seq o (length v)) v)
  = take o a ++ v ++ drop (o + length v) a.
Proof.
  revert o a. induction v as [|x v IH]; intros o a Hlen; simpl in *.
  - by rewrite Nat.add_0_r, take_drop.
  - rewrite IH by (rewrite length_insert; lia).
    rewrite (take_S_r _ o x) by (apply list_lookup_insert_eq; lia).
    rewrite take_insert_ge by lia. rewrite drop_insert_lt by lia.
    replace (o + S (length v)) with (S o + length v) by lia.
    by rewrite <-(assoc (++)).
Qed.

Lemma np_setitems_seq {A} (a : list A) o v w :
  o + length v ≤ length a →
  np_setitems a (seq o (length v)) v w
  = Return (take o a ++ v ++ drop (o + length v) a) w.
Proof.
  intros Hlen. unfold np_setitems.
  assert (forallb (λ i, i <? length a) (seq o (length v)) = true) as ->.
  { apply forallb_forall. intros i Hi%in_seq. apply Nat.ltb_lt. lia. }
  unfold np_broadcast. rewrite length_seq, Nat.eqb_refl.
  erewrite bind_Return; [|reflexivity].
  by rewrite foldl_insert_seq.
Qed.

Lemma np_setitems_seq_len {A} (a : list A) o n v w :
  length v = n → o + n ≤ length a →
  np_setitems a (seq o n) v w = Return (take o a ++ v ++ drop (o + n) a) w.
Proof. intros <- Hlen. by apply np_setitems_seq. Qed.

Lemma fmap_seq_shift {A} (f : nat → A) o b n :
  (λ k, f (o + k * b)) <$> seq 0 (S n)
  = f o :: ((λ k, f (o + b + k * b)) <$> seq 0 n).
Proof.
  simpl. rewrite Nat.add_0_r. f_equal.
  rewrite <-fmap_S_seq, <-list_fmap_compose.
  apply list_fmap_ext. intros i k _. simpl. f_equal. lia.
Qed.

(** The loop over the full batches, for any batch size. *)
Lemma full_batches_run self n event_sequences inputs initial_state
    temperature offset final_state softmax w :
  collaborators_ok self →
  offset + n * batch_size (hparams (_config self)) ≤ length event_sequences →
  offset + n * batch_size (hparams (_config self)) ≤ length inputs →
  offset + n * batch_size (hparams (_config self)) ≤ length initial_state →
  length final_state = length event_sequences →
  length softmax = length event_sequences →
  ∃ softmax' w',
    full_batches self n event_sequences inputs initial_state temperature
                 offset final_state softmax w
    = Return (offset + n * batch_size (hparams (_config self)),
              take offset final_state
              ++ mjoin ((λ k, batch_states self inputs initial_state
                                temperature
                                (offset + k * batch_size (hparams (_config self))))
                        <$> seq 0 n)
              ++ drop (offset + n * batch_size (hparams (_config self)))
                      final_state,
              softmax') w' ∧
    length softmax' = length event_sequences ∧
    extended_by (occurrences (take (n * batch_size (hparams (_config self)))
                                   (drop offset event_sequences)))
                (heap w) (heap w') ∧
    session_log w'
    = session_log w
      ++ ((λ k, batch_call self inputs initial_state temperature
                  (offset + k * batch_size (hparams (_config self))))
          <$> seq 0 n).
Proof.
  intros Hok. set (b := batch_size (hparams (_config self))).
  revert offset final_state softmax w.
  induction n as [|n IH]; intros o fs sm w Hes Hin Hst Hfs Hsm.
  - exists sm, w. simpl. rewrite !Nat.add_0_r, take_drop, app_nil_r.
    split; [done|]. split; [done|]. split; [apply extended_by_refl|done].
  - simpl in Hes, Hin, Hst.
    set (batch := take b (drop o event_sequences)).
    assert (length batch = b) as Hbatch.
    { unfold batch. rewrite length_take_le; [done|]. rewrite length_drop. lia. }
    assert (length (take b (drop o initial_state)) = b) as Hbst.
    { rewrite length_take_le; [done|]. rewrite length_drop. lia. }
    destruct (generate_step_for_batch_run self batch
                (take b (drop o inputs)) (take b (drop o initial_state))
                temperature w Hbatch Hbst) as (ps & w1 & Hstep & HB & Hps
                                               & Hext1 & Hlog1);
      [done|].
    set (B := batch_states self inputs initial_state temperature o).
    change ((run_step session (take b (drop o inputs))
               (take b (drop o initial_state))
               (fed_temperature temperature)).1) with B in Hstep, HB.
    change (FetchStep (take b (drop o inputs)) (take b (drop o initial_state))
              (fed_temperature temperature))
      with (batch_call self inputs initial_state temperature o) in Hlog1.
    fold b in HB, Hps.
    set (fs1 := take o fs ++ B ++ drop (o + b) fs).
    set (sm1 := take o sm ++ ps ++ drop (o + b) sm).
    assert (length fs1 = length event_sequences) as Hfs1.
    { unfold fs1. rewrite !length_app, length_take_le, length_drop by lia.
      lia. }
    assert (length sm1 = length event_sequences) as Hsm1.
    { unfold sm1. rewrite !length_app, length_take_le, length_drop by lia.
      lia. }
    destruct (IH (o + b) fs1 sm1 w1)
      as (sm' & w' & Hrun & Hsm' & Hext & Hlog); [lia|lia|lia|done|done|].
    exists sm', w'. split; [|split; [done|split]].
    + simpl full_batches. fold b. rewrite py_range_add.
      erewrite bind_Return; [|apply py_getitems_seq; lia].
      erewrite bind_Return; [|apply py_getitems_seq; lia].
      erewrite bind_Return; [|apply py_getitems_seq; lia].
      fold batch. erewrite bind_Return; [|exact Hstep]. cbv beta iota.
      erewrite bind_Return; [|apply np_setitems_seq_len; (done || lia)].
      fold fs1.
      erewrite bind_Return; [|apply np_setitems_seq_len; (done || lia)].
      fold sm1. rewrite Hrun.
      replace (o + b + n * b) with (o + S n * b) by lia.
      do 3 f_equal.
      rewrite (fmap_seq_shift
                 (batch_states self inputs initial_state temperature)).
      simpl mjoin. fold B. unfold fs1.
      rewrite (assoc (++) (take o fs) B).
      rewrite take_app_length' by (rewrite length_app, length_take_le; lia).
      replace (o + S n * b) with (length (take o fs ++ B) + n * b)
        by (rewrite length_app, length_take_le; lia).
      rewrite drop_app_add, drop_drop, <-!(assoc (++)).
      do 3 f_equal. rewrite length_app, length_take_le by lia. f_equal. lia.
    + replace (S n * b) with (b + n * b) by lia.
      rewrite <-take_take_drop, drop_drop.
      eapply extended_by_ext; [|eapply extended_by_trans; [exact Hext1|exact Hext]].
      intros r. by rewrite occurrences_app.
    + rewrite Hlog, Hlog1.
      rewrite (fmap_seq_shift
                 (batch_call self inputs initial_state temperature)).
      by rewrite <-(assoc (++)).
Qed.

(** X3: when the batch size is positive and divides the number of
    sequences, and the collaborators keep their contract, [_generate_step]
    returns; the session was called once per batch, in order, each time with
    the inputs and state rows of that batch; the returned state is the
    concatenation of what these calls returned, so nothing that [np.empty]
    left is in it; there is one chosen probability per sequence; and every
    sequence object got as many events as it is listed in [event_sequences]:
    one each when the sequences are distinct objects, two for an object that
    is listed twice. *)
Theorem generate_step_full_batches self event_sequences inputs initial_state
    temperature w :
  0 < batch_size (hparams (_config self)) →
  length event_sequences `mod` batch_size (hparams (_config self)) = 0 →
  collaborators_ok self →
  length event_sequences ≤ length inputs →
  length event_sequences ≤ length initial_state →
  ∃ softmax w',
    _generate_step self event_sequences inputs initial_state temperature w
    = Return (mjoin ((λ k, batch_states self inputs initial_state temperature
                             (k * batch_size (hparams (_config self))))
                     <$> seq 0 (length event_sequences
                                `div` batch_size (hparams (_config self)))),
              softmax) w' ∧
    length softmax = length event_sequences ∧
    extended_by (occurrences event_sequences) (heap w) (heap w') ∧
    (NoDup event_sequences → extended 1 event_sequences (heap w) (heap w')) ∧
    session_log w'
    = session_log w
      ++ ((λ k, batch_call self inputs initial_state temperature
                  (k * batch_size (hparams (_config self))))
          <$> seq 0 (length event_sequences
                     `div` batch_size (hparams (_config self)))).
Proof.
  set (b := batch_size (hparams (_config self))).
  set (N := length event_sequences).
  intros Hb Hmod Hok Hin Hst.
  assert (N `div` b * b = N) as Hq.
  { pose proof (Nat.div_mod_eq N b). lia. }
  destruct (full_batches_run self (N `div` b) event_sequences inputs
              initial_state temperature 0 (replicate N uninit_row)
              (replicate N uninit_float) w Hok)
    as (sm & w' & Hrun & Hsm & Hext & Hlog);
    [fold b; lia..|by rewrite length_replicate|by rewrite length_replicate|].
  fold b in Hrun, Hext, Hlog. simpl in Hrun. rewrite Hq in Hrun, Hext.
  rewrite drop_0 in Hext. unfold N in Hext at 1. rewrite firstn_all in Hext.
  rewrite drop_ge in Hrun by (rewrite length_replicate; lia).
  rewrite app_nil_r in Hrun.
  exists sm, w'. split; [|split; [done|split; [done|split]]].
  - unfold _generate_step, py_floordiv. fold b N.
    destruct (Nat.eqb_spec b 0) as [|_]; [lia|].
    erewrite bind_Return; [|reflexivity].
    erewrite bind_Return; [|exact Hrun]. cbv beta iota.
    by rewrite Nat.ltb_irrefl.
  - intros Hnd. by apply extended_by_NoDup.
  - exact Hlog.
Qed.

(** ** The non-full batch, in general *)

Lemma deepcopy_many {A} (f : A → Mw ref) (l : list A) w :
  (∀ x w0, ∃ r, f x w0 = Return r w0) →
  ∃ w', mapM (λ x, r ← f x; deepcopy r) l w
        = Return (seq (length (heap w)) (length l)) w' ∧
    length (heap w') = length (heap w) + length l ∧
    take (length (heap w)) (heap w') = heap w ∧
    sampler w' = sampler w ∧
    session_log w' = session_log w.
Proof.
  intros Hf. revert w. induction l as [|x l IH]; intros w.
  - exists w. simpl. rewrite Nat.add_0_r, firstn_all. done.
  - destruct (Hf x w) as [r Hr].
    set (w1 := World (heap w ++ [default [] (heap w !! r)]) (sampler w)
                 (session_log w)).
    destruct (IH w1) as (w' & Hrun & Hlen & Htake & Hs & Hlog).
    exists w'. simpl mapM.
    erewrite bind_Return; [|erewrite bind_Return; [reflexivity|exact Hr]].
    fold w1. erewrite bind_Return; [|exact Hrun].
    simpl in *. rewrite length_app in *. simpl in *.
    replace (length (heap w) + 1) with (S (length (heap w))) in * by lia.
    split; [done|]. split; [lia|]. split; [|done].
    apply (f_equal (take (length (heap w)))) in Htake.
    rewrite take_take, take_app_length in Htake.
    by replace (length (heap w) `min` S (length (heap w)))
      with (length (heap w)) in Htake by lia.
Qed.

(** X4: when the batch size is positive and does not divide the number of
    sequences, and the collaborators keep their contract, [_generate_step]
    ends in [TypeError], raised while the arguments for the padded batch are
    built.  By then the full batches are done: the session was called once
    for each of them and their sequences are extended; and the copies of the
    last sequence that pad the batch are made.  The session is not called
    for the padded batch. *)
Theorem generate_step_partial_batch self event_sequences inputs
    initial_state temperature w :
  0 < batch_size (hparams (_config self)) →
  length event_sequences `mod` batch_size (hparams (_config self)) ≠ 0 →
  collaborators_ok self →
  length event_sequences ≤ length inputs →
  length event_sequences ≤ length initial_state →
  ∃ w',
    _generate_step self event_sequences inputs initial_state temperature w
    = Raise TypeError w' ∧
    session_log w'
    = session_log w
      ++ ((λ k, batch_call self inputs initial_state temperature
                  (k * batch_size (hparams (_config self))))
          <$> seq 0 (length event_sequences
                     `div` batch_size (hparams (_config self)))) ∧
    extended_by
      (occurrences
         (take (length event_sequences `div` batch_size (hparams (_config self))
                * batch_size (hparams (_config self)))
               event_sequences))
      (heap w) (take (length (heap w)) (heap w')) ∧
    length (heap w')
    = length (heap w)
      + (batch_size (hparams (_config self))
         - length event_sequences `mod` batch_size (hparams (_config self))).
Proof.
  set (b := batch_size (hparams (_config self))).
  set (N := length event_sequences).
  intros Hb Hmod Hok Hin Hst.
  pose proof (Nat.div_mod_eq N b) as Hdm.
  pose proof (Nat.mod_upper_bound N b ltac:(lia)) as Hub.
  set (q := N `div` b) in *.
  assert (q * b < N) as Hlt by lia.
  destruct (full_batches_run self q event_sequences inputs
              initial_state temperature 0 (replicate N uninit_row)
              (replicate N uninit_float) w Hok)
    as (sm & w1 & Hrun & Hsm & Hext & Hlog);
    [fold b; lia..|by rewrite length_replicate|by rewrite length_replicate|].
  fold b in Hrun, Hext, Hlog. simpl "+" in Hrun, Hlog.
  rewrite drop_0 in Hext.
  destruct (deepcopy_many (λ _ : nat, py_last event_sequences)
              (py_range 0 (b - (N - q * b))) w1)
    as (w2 & Hcopy & Hlen2 & Htake2 & _ & Hlog2).
  { intros _ w0. unfold py_last.
    destruct (list.last event_sequences) as [r|] eqn:Hlast; [by exists r|].
    apply last_None in Hlast. subst N. rewrite Hlast in Hlt. simpl in Hlt. lia. }
  unfold py_range in Hlen2. rewrite length_seq, Nat.sub_0_r in Hlen2.
  destruct Hext as [Hlen1 Hext1].
  exists w2. split; [|split; [|split]].
  - unfold _generate_step, py_floordiv. fold b N.
    destruct (Nat.eqb_spec b 0) as [|_]; [lia|].
    erewrite bind_Return; [|reflexivity]. fold q.
    erewrite bind_Return; [|exact Hrun]. cbv beta iota.
    apply Nat.ltb_lt in Hlt as Hltb. rewrite Hltb.
    unfold pad_batch. fold b N.
    erewrite bind_Return;
      [|unfold py_range; apply py_getitems_seq; lia].
    erewrite bind_Return; [|exact Hcopy].
    erewrite bind_Return;
      [|unfold py_range; apply py_getitems_seq; lia].
    assert (∃ x, list.last inputs = Some x) as [x Hx].
    { destruct (list.last inputs) as [x|] eqn:Hl; [by exists x|].
      apply last_None in Hl. rewrite Hl in Hin. simpl in Hin. lia. }
    unfold py_last at 1. rewrite Hx.
    erewrite bind_Return; [|reflexivity].
    erewrite bind_Return;
      [|unfold py_range; apply py_getitems_seq; lia].
    done.
  - by rewrite Hlog2, Hlog.
  - rewrite <-Hlen1, Htake2. by split.
  - rewrite Hlen2, Hlen1. f_equal. lia.
Qed.

(** X5: whenever [_generate_step] returns, whatever the batch size and the
    collaborators, the state it returns has one row per sequence and there is
    one chosen probability per sequence. *)
Theorem generate_step_output_sizes self event_sequences inputs initial_state
    temperature w final_state softmax w' :
  _generate_step self event_sequences inputs initial_state temperature w
  = Return (final_state, softmax) w' →
  length final_state = length event_sequences ∧
  length softmax = length event_sequences.
Proof. apply generate_step_length. Qed.

(** ** Branching: children, parents and degenerate parameters *)

Lemma lookup_py_list_mul {A} (l : list A) n j x :
  py_list_mul l n !! j = Some x → l !! (j `mod` length l) = Some x.
Proof. apply lookup_np_tile. Qed.

(** X6: with a batch size of 1 and collaborators that keep their contract,
    [_generate_branches] on aligned arrays of existing sequences returns
    [branch_factor] times as many sequences, all of them new objects; child
    [j] is the sequence of parent [j mod M] followed by [num_steps] new
    events; and no object that existed before, so no parent, was changed,
    even when several entries of [event_sequences] are the same object. *)
Theorem generate_branches_children self event_sequences loglik branch_factor
    num_steps inputs initial_state temperature w :
  batch_size (hparams (_config self)) = 1 →
  collaborators_ok self →
  Forall (λ r, r < length (heap w)) event_sequences →
  length inputs = length event_sequences →
  length initial_state = length event_sequences →
  length loglik = length event_sequences →
  ∃ final_state' loglik' w',
    _generate_branches self event_sequences loglik branch_factor num_steps
                       inputs initial_state temperature w
    = Return (seq (length (heap w)) (length event_sequences * branch_factor),
              final_state', loglik') w' ∧
    length (heap w')
    = length (heap w) + length event_sequences * branch_factor ∧
    (∀ r, r < length (heap w) → heap w' !! r = heap w !! r) ∧
    (∀ j, j < length event_sequences * branch_factor →
       ∃ r s suffix,
         event_sequences !! (j `mod` length event_sequences) = Some r ∧
         heap w !! r = Some s ∧
         heap w' !! (length (heap w) + j) = Some (s ++ suffix) ∧
         length suffix = Z.to_nat num_steps).
Proof.
  intros Hb Hok Hvalid Hin Hst Hll.
  set (M := length event_sequences) in *.
  set (h := heap w).
  assert (Forall (λ r, r < length h) (py_list_mul event_sequences branch_factor))
    as Hvalid'.
  { apply Forall_forall. intros r Hr%elem_of_py_list_mul.
    by apply (proj1 (Forall_forall _ _) Hvalid). }
  pose proof (deepcopy_all (λ r : ref, r) _ w Hvalid') as Hcopy.
  rewrite length_py_list_mul in Hcopy. fold M h in Hcopy.
  set (w0 := World _ _ _) in Hcopy.
  set (es' := seq (length h) (M * branch_factor)) in *.
  destruct (branch_steps_one self (Z.to_nat num_steps) es'
              (py_list_mul inputs branch_factor)
              (np_tile initial_state branch_factor)
              (np_tile loglik branch_factor) temperature w0 Hb Hok)
    as (st' & ll' & w' & Hrun & _ & _ & [Hlen Hext] & _).
  { apply NoDup_seq. }
  { rewrite length_py_list_mul, Hin. unfold es'. by rewrite length_seq. }
  { rewrite length_np_tile, Hst. unfold es'. by rewrite length_seq. }
  { rewrite length_np_tile, Hll. unfold es'. by rewrite length_seq. }
  assert (length (heap w0) = length h + M * branch_factor) as Hlen0.
  { unfold w0. simpl. rewrite length_app, length_fmap, length_py_list_mul.
    done. }
  exists st', ll', w'. split; [|split; [|split]].
  - unfold _generate_branches.
    erewrite bind_Return; [|exact Hcopy].
    erewrite bind_Return; [|exact Hrun]. done.
  - by rewrite Hlen, Hlen0.
  - intros r Hr.
    destruct (lookup_lt_is_Some_2 h r Hr) as [s Hs]. fold h. rewrite Hs.
    assert (heap w0 !! r = Some s) as Hs0
      by (unfold w0; simpl; by rewrite lookup_app_l).
    specialize (Hext r s Hs0). rewrite decide_False in Hext; [done|].
    intros [? ?]%elem_of_seq. lia.
  - intros j Hj.
    destruct (lookup_lt_is_Some_2 (py_list_mul event_sequences branch_factor) j)
      as [r Hr]; [by rewrite length_py_list_mul|].
    pose proof (lookup_py_list_mul _ _ _ _ Hr) as Hparent.
    apply list_elem_of_lookup_2 in Hr as Hr_in.
    pose proof (proj1 (Forall_forall _ _) Hvalid' r Hr_in) as Hr_valid.
    destruct (lookup_lt_is_Some_2 h r Hr_valid) as [s Hs].
    assert (heap w0 !! (length h + j) = Some s) as Hs0.
    { unfold w0. simpl. rewrite lookup_app_r by lia.
      match goal with
      | |- context [?a + j - ?b] =>
          replace (a + j - b) with j by (unfold h; lia)
      end.
      unfold ref in *. rewrite list_lookup_fmap, Hr. simpl. fold h. by rewrite Hs. }
    specialize (Hext _ s Hs0). rewrite decide_True in Hext.
    2:{ apply elem_of_seq. lia. }
    destruct Hext as (sfx & Hsfx & Hs').
    by exists r, s, sfx.
Qed.

Lemma generate_step_nil self inputs initial_state temperature w :
  0 < batch_size (hparams (_config self)) →
  _generate_step self [] inputs initial_state temperature w
  = Return ([], []) w.
Proof.
  intros Hb. unfold _generate_step, py_floordiv.
  destruct (batch_size _ =? 0) eqn:E; [apply Nat.eqb_eq in E; lia|].
  cbn. by rewrite Nat.Div0.div_0_l.
Qed.

Lemma branch_steps_nil self n inputs temperature w :
  0 < batch_size (hparams (_config self)) →
  branch_steps self n [] inputs [] [] temperature w = Return ([], []) w.
Proof.
  intros Hb. induction n as [|n IH]; simpl; [done|].
  erewrite bind_Return; [|by apply generate_step_nil]. cbv beta iota.
  erewrite bind_Return; [|reflexivity]. exact IH.
Qed.

Lemma py_list_mul_nil {A} n : py_list_mul (@nil A) n = [].
Proof.
  unfold py_list_mul. induction n as [|n IH]; simpl; [done|]. exact IH.
Qed.

(** A population without sequences stays one. *)
Lemma generate_branches_nil self event_sequences loglik branch_factor
    num_steps inputs initial_state temperature w :
  0 < batch_size (hparams (_config self)) →
  branch_factor = 0 ∨ (event_sequences = [] ∧ loglik = [] ∧ initial_state = []) →
  _generate_branches self event_sequences loglik branch_factor num_steps
                     inputs initial_state temperature w
  = Return ([], [], []) w.
Proof.
  intros Hb Hdeg. unfold _generate_branches, np_tile.
  fold (py_list_mul initial_state branch_factor).
  fold (py_list_mul loglik branch_factor).
  assert (py_list_mul event_sequences branch_factor = [] ∧
          py_list_mul initial_state branch_factor = [] ∧
          py_list_mul loglik branch_factor = []) as (-> & -> & ->).
  { destruct Hdeg as [->|(-> & -> & ->)]; [done|].
    by rewrite !py_list_mul_nil. }
  erewrite bind_Return; [|reflexivity].
  erewrite bind_Return; [|by apply branch_steps_nil]. done.
Qed.

(** X7: with a positive batch size, whatever the collaborators,
    [_generate_branches] with a branch factor of 0 returns three empty
    arrays and leaves the world as it was: nothing is copied and the
    session is not called. *)
Theorem generate_branches_no_branch self event_sequences loglik num_steps
    inputs initial_state temperature w :
  0 < batch_size (hparams (_config self)) →
  _generate_branches self event_sequences loglik 0 num_steps inputs
                     initial_state temperature w
  = Return ([], [], []) w.
Proof. intros Hb. apply generate_branches_nil; [done|by left]. Qed.

(** X8: with a number of steps that is 0 or negative, whatever the batch
    size and the collaborators, [_generate_branches] on existing sequences
    returns the copies as they are, with the state rows and the
    log-likelihoods of their parents tiled [branch_factor] times, and the
    session is not called. *)
Theorem generate_branches_no_step self event_sequences loglik branch_factor
    num_steps inputs initial_state temperature w :
  (num_steps ≤ 0)%Z →
  Forall (λ r, r < length (heap w)) event_sequences →
  _generate_branches self event_sequences loglik branch_factor num_steps
                     inputs initial_state temperature w
  = Return (seq (length (heap w)) (length event_sequences * branch_factor),
            np_tile initial_state branch_factor,
            np_tile loglik branch_factor)
      (World (heap w
              ++ ((λ r, default [] (heap w !! r))
                  <$> py_list_mul event_sequences branch_factor))
             (sampler w) (session_log w)).
Proof.
  intros Hn Hvalid.
  assert (Forall (λ r, r < length (heap w))
            (py_list_mul event_sequences branch_factor)) as Hvalid'.
  { apply Forall_forall. intros r Hr%elem_of_py_list_mul.
    by apply (proj1 (Forall_forall _ _) Hvalid). }
  pose proof (deepcopy_all (λ r : ref, r) _ w Hvalid') as Hcopy.
  rewrite length_py_list_mul in Hcopy.
  unfold _generate_branches. erewrite bind_Return; [|exact Hcopy].
  replace (Z.to_nat num_steps) with 0 by lia. done.
Qed.

(** ** Pruning: edges and composition *)

Lemma mapM_raise {A B} (f : A → Mw B) l e w :
  Forall (λ x, (∃ y, f x w = Return y w) ∨ f x w = Raise e w) l →
  Exists (λ x, f x w = Raise e w) l →
  mapM f l w = Raise e w.
Proof.
  induction 1 as [|x l Hx _ IH]; intros Hex; [by apply Exists_nil in Hex|].
  simpl. destruct Hx as [[y Hy]|Hx]; [|by erewrite bind_Raise].
  apply Exists_cons in Hex as [Hex|Hex]; [congruence|].
  erewrite bind_Return; [|exact Hy]. by erewrite bind_Raise; [|apply IH].
Qed.

Lemma py_getitems_None {A} (l : list A) idx w :
  Exists (λ i, l !! i = None) idx →
  py_getitems l idx w = Raise IndexError w.
Proof.
  intros Hex. apply mapM_raise.
  - apply Forall_forall. intros i _. unfold py_getitem.
    destruct (l !! i) as [x|]; [left; by exists x|by right].
  - eapply Exists_impl; [exact Hex|]. intros i Hi. unfold py_getitem.
    by rewrite Hi.
Qed.

Lemma nlargest_run (loglik : list R) n k w :
  length loglik = n →
  nlargest Rltb k (py_range 0 n) (λ i, py_getitem loglik i) w
  = Return (take k (sorted_reverse Rltb (zip loglik (seq 0 n)))).*2 w.
Proof.
  intros Hll. unfold nlargest. destruct (k =? 0) eqn:Ek.
  - apply Nat.eqb_eq in Ek. by rewrite Ek.
  - erewrite bind_Return; [done|].
    apply mapM_pure. unfold py_range. rewrite Nat.sub_0_r.
    apply Forall2_same_length_lookup. split.
    + rewrite length_zip, length_seq. lia.
    + intros i j [a j'] Hj Ha. apply lookup_seq in Hj as [-> Hi].
      apply lookup_zip_Some in Ha as [Ha Hj']. simpl in *.
      apply lookup_seq in Hj' as [-> _].
      erewrite bind_Return; [done|]. by apply py_getitem_Some.
Qed.

(** X9: [_prune_branches] with [k = 0] returns three empty arrays whatever
    it is given, without reading a log-likelihood.  With [k ≥ 1] it raises
    [IndexError] when there are fewer log-likelihoods than sequences, and,
    when it has to keep every sequence, also when there are fewer state rows
    than sequences.  The world is as it was in each case. *)
Theorem prune_branches_edges self event_sequences final_state loglik k w :
  _prune_branches self event_sequences final_state loglik 0 w
  = Return ([], [], []) w ∧
  (0 < k → length loglik < length event_sequences →
   _prune_branches self event_sequences final_state loglik k w
   = Raise IndexError w) ∧
  (0 < k → length loglik = length event_sequences →
   length event_sequences ≤ k →
   length final_state < length event_sequences →
   _prune_branches self event_sequences final_state loglik k w
   = Raise IndexError w).
Proof.
  split; [done|]. split.
  - intros Hk Hlen. unfold _prune_branches, nlargest.
    destruct (Nat.eqb_spec k 0) as [|_]; [lia|].
    erewrite bind_Raise; [done|]. erewrite bind_Raise; [done|].
    apply mapM_raise.
    + apply Forall_forall. intros i _. unfold py_getitem.
      destruct (loglik !! i) as [a|]; [left; by exists (a, i)|by right].
    + apply Exists_exists. exists (length loglik). split.
      * unfold py_range. apply elem_of_seq. lia.
      * unfold py_getitem. by rewrite lookup_ge_None_2 by lia.
  - intros Hk Hll Hall Hfs.
    set (M := length event_sequences) in *.
    destruct (selection_props loglik M k Hll)
      as (_ & Hlen & _ & Hin & Hsel & _).
    set (sorted := sorted_reverse Rltb (zip loglik (seq 0 M))) in *.
    assert (take k sorted = sorted) as Htake.
    { apply take_ge. unfold sorted.
      rewrite sorted_reverse_perm, length_zip, length_seq. lia. }
    rewrite Htake in Hsel, Hlen.
    assert (Forall (λ i, i < M) sorted.*2) as Hrange.
    { apply Forall_forall. intros i [[a i'] [-> Hi]]%list_elem_of_fmap.
      apply Hsel, lookup_lt_Some in Hi. simpl. lia. }
    destruct (lookups_exist event_sequences sorted.*2 Hrange) as [es' Hes'].
    unfold _prune_branches. fold M.
    erewrite bind_Return; [|by apply nlargest_run].
    fold sorted. rewrite Htake.
    erewrite bind_Return; [|by apply py_getitems_Forall2].
    erewrite bind_Raise; [done|]. apply py_getitems_None.
    apply Exists_exists. exists (length final_state). split.
    + destruct (lookup_lt_is_Some_2 loglik (length final_state)) as [a Ha];
        [lia|].
      apply list_elem_of_fmap. exists (a, length final_state).
      split; [done|]. by apply Hin.
    + by apply lookup_ge_None_2.
Qed.

Lemma sorted_reverse_id {A} (l : list (R * A)) :
  StronglySorted (λ x y, (y.1 <= x.1)%R) l → sorted_reverse Rltb l = l.
Proof.
  induction 1 as [|x l Hs IH Hx]; [done|].
  unfold sorted_reverse in *. simpl. rewrite IH.
  destruct l as [|y l]; [done|]. simpl.
  apply Forall_cons in Hx as [Hxy _].
  destruct (Rltb x.1 y.1) eqn:E; [|done].
  apply Rltb_lt in E. lra.
Qed.

Lemma lookups_unique {A} (l : list A) idx xs ys :
  Forall2 (λ i x, l !! i = Some x) idx xs →
  Forall2 (λ i x, l !! i = Some x) idx ys → xs = ys.
Proof.
  intros Hxs. revert ys. induction Hxs as [|i x idx xs Hx _ IH]; intros ys Hys.
  - by apply Forall2_nil_inv_l in Hys.
  - apply Forall2_cons_inv_l in Hys as (y & ys' & Hy & Hys & ->).
    f_equal; [congruence|by apply IH].
Qed.

Lemma lookups_seq {A} (l : list A) n :
  n ≤ length l → Forall2 (λ i x, l !! i = Some x) (seq 0 n) (take n l).
Proof.
  intros Hn. apply Forall2_same_length_lookup. split.
  - by rewrite length_seq, length_take_le.
  - intros i j x Hj Hx. apply lookup_seq in Hj as [-> Hi].
    by rewrite lookup_take_lt in Hx.
Qed.

Lemma take_min {A} (l : list A) k : take (k `min` length l) l = take k l.
Proof.
  destruct (decide (k ≤ length l)); [by rewrite Nat.min_l by lia|].
  rewrite Nat.min_r by lia. by rewrite !take_ge by lia.
Qed.

(** What [_prune_branches] returns on aligned arrays whose log-likelihoods
    are already in non-increasing order: the first [k] of each. *)
Lemma prune_branches_sorted_input self event_sequences final_state loglik k w :
  length final_state = length event_sequences →
  length loglik = length event_sequences →
  StronglySorted (λ a b, (b <= a)%R) loglik →
  _prune_branches self event_sequences final_state loglik k w
  = Return (take k event_sequences, take k final_state, take k loglik) w.
Proof.
  intros Hfs Hll Hsorted.
  destruct (prune_branches_run self event_sequences final_state loglik k w
              Hfs Hll) as (es' & fs' & Hrun & Hes' & Hfs').
  set (M := length event_sequences) in *.
  assert (sorted_reverse Rltb (zip loglik (seq 0 M)) = zip loglik (seq 0 M))
    as Hid.
  { apply sorted_reverse_id, StronglySorted_of_lookup.
    intros p q [a i] [b j] Hpq Hp Hq.
    apply lookup_zip_Some in Hp as [Hp _], Hq as [Hq _]. simpl in *.
    exact (StronglySorted_lookup (λ a b, (b <= a)%R) loglik p q a b
             Hsorted Hpq Hp Hq). }
  rewrite Hid in Hrun, Hes', Hfs'.
  assert ((take k (zip loglik (seq 0 M))).*2 = seq 0 (k `min` M)) as Hidx.
  { rewrite fmap_take, snd_zip by (rewrite length_seq; lia).
    by rewrite take_seq. }
  assert ((take k (zip loglik (seq 0 M))).*1 = take k loglik) as Hkeys.
  { rewrite fmap_take, fst_zip by (rewrite length_seq; lia). done. }
  rewrite Hidx in Hes', Hfs'. rewrite Hkeys in Hrun.
  assert (es' = take k event_sequences) as ->.
  { apply (lookups_unique event_sequences (seq 0 (k `min` M))); [done|].
    rewrite <-(take_min event_sequences k). apply lookups_seq. lia. }
  assert (fs' = take k final_state) as ->.
  { apply (lookups_unique final_state (seq 0 (k `min` M))); [done|].
    rewrite <-(take_min final_state k), Hfs. apply lookups_seq. lia. }
  done.
Qed.

(** X10: on aligned arrays, pruning to [k] and then pruning the result to
    [j ≤ k] returns what pruning to [j] returns at once, and that is the
    first [j] of what pruning to [k] returned; pruning twice to the same [k]
    changes nothing. *)
Theorem prune_branches_twice self event_sequences final_state loglik j k w :
  j ≤ k →
  length final_state = length event_sequences →
  length loglik = length event_sequences →
  ∃ es1 fs1 ll1,
    _prune_branches self event_sequences final_state loglik k w
    = Return (es1, fs1, ll1) w ∧
    _prune_branches self es1 fs1 ll1 j w
    = Return (take j es1, take j fs1, take j ll1) w ∧
    _prune_branches self event_sequences final_state loglik j w
    = Return (take j es1, take j fs1, take j ll1) w ∧
    _prune_branches self es1 fs1 ll1 k w = Return (es1, fs1, ll1) w.
Proof.
  intros Hjk Hfs Hll.
  destruct (prune_branches_run self event_sequences final_state loglik k w
              Hfs Hll) as (es1 & fs1 & Hrun1 & Hes1 & Hfs1).
  destruct (prune_branches_run self event_sequences final_state loglik j w
              Hfs Hll) as (es2 & fs2 & Hrun2 & Hes2 & Hfs2).
  destruct (selection_props loglik (length event_sequences) k Hll)
    as (Hsorted & Hlenk & _).
  set (sorted := sorted_reverse Rltb
                   (zip loglik (seq 0 (length event_sequences)))) in *.
  set (ll1 := (take k sorted).*1) in *.
  assert (length es1 = length (take k sorted)) as Hles1
    by (by rewrite <-(Forall2_length _ _ _ Hes1), length_fmap).
  assert (length fs1 = length (take k sorted)) as Hlfs1
    by (by rewrite <-(Forall2_length _ _ _ Hfs1), length_fmap).
  assert (length ll1 = length (take k sorted)) as Hlll1
    by (unfold ll1; by rewrite length_fmap).
  assert (StronglySorted (λ a b, (b <= a)%R) ll1) as Hdesc.
  { apply StronglySorted_of_lookup. intros p q a b Hpq Hp Hq.
    unfold ll1 in Hp, Hq.
    rewrite list_lookup_fmap in Hp. rewrite list_lookup_fmap in Hq.
    destruct (take k sorted !! p) as [[a' i]|] eqn:Hp1; [|done].
    destruct (take k sorted !! q) as [[b' i']|] eqn:Hq1; [|done].
    simpl in *. injection Hp as ->. injection Hq as ->.
    apply lookup_take_Some in Hp1 as [Hp1 _], Hq1 as [Hq1 _].
    destruct (StronglySorted_lookup before sorted p q _ _ Hsorted Hpq Hp1 Hq1)
      as [?|[? _]]; simpl in *; lra. }
  assert (take j (take k sorted) = take j sorted) as Htt.
  { rewrite take_take. by rewrite Nat.min_l by lia. }
  assert (take j ll1 = (take j sorted).*1) as Hll2
    by (unfold ll1; by rewrite <-fmap_take, Htt).
  assert (take j es1 = es2) as Hes.
  { apply (lookups_unique event_sequences (take j sorted).*2); [|done].
    rewrite <-Htt, fmap_take. by apply Forall2_take. }
  assert (take j fs1 = fs2) as Hfs'.
  { apply (lookups_unique final_state (take j sorted).*2); [|done].
    rewrite <-Htt, fmap_take. by apply Forall2_take. }
  exists es1, fs1, ll1. split; [done|]. split; [|split].
  - apply prune_branches_sorted_input; [congruence..|done].
  - by rewrite Hrun2, Hes, Hfs', Hll2.
  - rewrite prune_branches_sorted_input; [|congruence..|done].
    rewrite !take_ge; [done|..].
    + rewrite Hlll1, length_take. lia.
    + rewrite Hlfs1, length_take. lia.
    + rewrite Hles1, length_take. lia.
Qed.

(** ** The beam search, for any number of steps *)

Lemma mapM_deepcopy_refs {A} (f : A → ref) (l : list A) w rs w' :
  mapM (λ x, deepcopy (f x)) l w = Return rs w' →
  rs = seq (length (heap w)) (length l) ∧
  length (heap w') = length (heap w) + length l ∧
  session_log w' = session_log w.
Proof.
  revert w rs. induction l as [|x l IH]; intros w rs H; simpl in H.
  - apply ret_inv in H as [<- <-]. by rewrite Nat.add_0_r.
  - apply bind_inv in H as (r & w1 & Hr & H).
    injection Hr as <- <-.
    apply bind_inv in H as (rs' & w2 & Hrs & H).
    apply ret_inv in H as [<- <-].
    apply IH in Hrs as (-> & Hlen & Hlog). simpl in *.
    rewrite length_app in *. simpl in *.
    replace (length (heap w) + 1) with (S (length (heap w))) by lia.
    split; [done|]. split; [lia|done].
Qed.

Lemma generate_branches_refs self event_sequences loglik branch_factor
    num_steps inputs initial_state temperature w
    event_sequences' final_state' loglik' w' :
  _generate_branches self event_sequences loglik branch_factor num_steps
                     inputs initial_state temperature w
  = Return (event_sequences', final_state', loglik') w' →
  event_sequences'
  = seq (length (heap w)) (length event_sequences * branch_factor).
Proof.
  unfold _generate_branches. intros (es' & w0 & Hcopy & H)%bind_inv.
  apply bind_inv in H as ([fs' ll'] & w1 & _ & H).
  apply ret_inv in H as [[= <- _ _] _].
  apply (mapM_deepcopy_refs (λ r : ref, r)) in Hcopy as [-> _].
  by rewrite length_py_list_mul.
Qed.

Lemma beam_iterations_fresh self primer t n event_sequences final_state loglik
    temperature beam_size branch_factor steps_per_iteration w base
    event_sequences' final_state' loglik' w' :
  batch_size (hparams (_config self)) = 1 →
  collaborators_ok self →
  1 ≤ branch_factor →
  population_of primer t (heap w) event_sequences →
  length event_sequences = beam_size * branch_factor →
  length final_state = beam_size * branch_factor →
  length loglik = beam_size * branch_factor →
  base ≤ length (heap w) →
  Forall (λ r, base ≤ r) event_sequences →
  beam_iterations self n event_sequences final_state loglik temperature
                  beam_size branch_factor steps_per_iteration w
  = Return (event_sequences', final_state', loglik') w' →
  Forall (λ r, base ≤ r) event_sequences'.
Proof.
  intros Hb Hok Hbf. revert t event_sequences final_state loglik w.
  induction n as [|n IH]; intros t es fs ll w Hpop Hes Hfs Hll Hbase Hfresh H;
    simpl in H.
  - by apply ret_inv in H as [[= <- _ _] _].
  - destruct (prune_population self primer t es fs ll beam_size w Hpop)
      as (es1 & fs1 & ll1 & Hprune & Hes1 & Hfs1 & Hll1 & Hpop1);
      [congruence..|].
    assert (beam_size `min` length es = beam_size) as Hmin by (rewrite Hes; nia).
    rewrite Hmin in Hes1, Hfs1, Hll1.
    destruct (generate_branches_one self primer t es1 ll1 branch_factor
                steps_per_iteration
                ((λ r, events_to_input (encoder_decoder (_config self))
                         (default [] (heap w !! r)) false) <$> es1)
                fs1 temperature w Hb Hok Hpop1)
      as (es2 & fs2 & ll2 & w2 & Hbranch & Hes2 & Hfs2 & Hll2 & Hpop2 & _
          & Hheap2 & _);
      [by rewrite length_fmap|congruence..|].
    rewrite Hes1 in Hes2, Hfs2, Hll2.
    erewrite bind_Return in H by exact Hprune. cbv beta iota in H.
    erewrite bind_Return in H by apply get_inputs_batch_run.
    erewrite bind_Return in H by exact Hbranch. cbv beta iota in H.
    eapply (IH _ es2 fs2 ll2 w2 Hpop2 Hes2 Hfs2 Hll2); [lia| |exact H].
    rewrite (generate_branches_refs _ _ _ _ _ _ _ _ _ _ _ _ _ Hbranch).
    apply Forall_forall. intros r [? ?]%elem_of_seq. lia.
Qed.

(** With a batch size of 1, collaborators that keep their contract, a
    positive beam size and branch factor and a number of steps per
    iteration that is not 0, [_beam_search] returns a new object: the primer
    followed by as many events as the first branching and the iterations
    count together. *)
Lemma beam_search_run_general self primer events num_steps temperature
    beam_size branch_factor steps_per_iteration w :
  batch_size (hparams (_config self)) = 1 →
  collaborators_ok self →
  heap w !! events = Some primer →
  1 ≤ beam_size → 1 ≤ branch_factor →
  steps_per_iteration ≠ 0%Z →
  let first := ((num_steps - 1) `mod` steps_per_iteration + 1)%Z in
  let iterations := ((num_steps - first) `div` steps_per_iteration)%Z in
  ∃ r suffix w',
    _beam_search self events num_steps temperature beam_size branch_factor
                 steps_per_iteration w = Return r w' ∧
    heap w' !! r = Some (primer ++ suffix) ∧
    length suffix
    = Z.to_nat first + Z.to_nat iterations * Z.to_nat steps_per_iteration ∧
    length (heap w) ≤ r ∧
    (∀ r0, r0 < length (heap w) → heap w' !! r0 = heap w !! r0).
Proof.
  intros Hb Hok Hprimer Hbeam Hbf Hspi first iterations.
  destruct (beam_init_run self events primer num_steps beam_size
              steps_per_iteration w Hprimer)
    as (inputs & w0 & Hinit & Hinputs & Hpop0 & Hold0 & Hlog0); [done|].
  fold first in Hinit.
  set (es0 := seq (length (heap w)) beam_size) in *.
  assert (length (heap w) ≤ length (heap w0)) as Hheap0.
  { destruct (decide (length (heap w) ≤ length (heap w0))) as [|Hgt]; [done|].
    pose proof (Hold0 (length (heap w0))) as Hcontra.
    rewrite lookup_ge_None_2 in Hcontra by lia.
    destruct (lookup_lt_is_Some_2 (heap w) (length (heap w0))) as [? Hx];
      [lia|]. rewrite Hx in Hcontra. by specialize (Hcontra ltac:(lia)). }
  destruct (generate_branches_one self primer 0 es0 (replicate beam_size 0%R)
              branch_factor first inputs
              (np_tile (run_initial_state session) beam_size) temperature w0
              Hb Hok Hpop0)
    as (es1 & fs1 & ll1 & w1 & Hbranch & Hes1 & Hfs1 & Hll1 & Hpop1 & Hold1
        & Hheap1 & _).
  { rewrite Hinputs. unfold es0. by rewrite length_seq. }
  { rewrite length_np_tile, (proj1 Hok), Hb. unfold es0.
    rewrite length_seq. lia. }
  { rewrite length_replicate. unfold es0. by rewrite length_seq. }
  unfold es0 in Hes1, Hfs1, Hll1.
  rewrite length_seq in Hes1, Hfs1, Hll1.
  assert (Forall (λ r, length (heap w) ≤ r) es1) as Hfresh1.
  { rewrite (generate_branches_refs _ _ _ _ _ _ _ _ _ _ _ _ _ Hbranch).
    apply Forall_forall. intros r [? ?]%elem_of_seq. lia. }
  destruct (beam_iterations_one self primer (0 + Z.to_nat first)
              (Z.to_nat iterations) es1 fs1 ll1 temperature beam_size
              branch_factor steps_per_iteration w1 Hb Hok Hbf Hpop1 Hes1 Hfs1
              Hll1)
    as (es2 & fs2 & ll2 & w2 & Hloop & Hes2 & Hfs2 & Hll2 & Hpop2 & Hold2
        & Hheap2 & _).
  pose proof (beam_iterations_fresh self primer _ _ es1 fs1 ll1 temperature
                beam_size branch_factor steps_per_iteration w1
                (length (heap w)) es2 fs2 ll2 w2 Hb Hok Hbf Hpop1 Hes1 Hfs1
                Hll1 ltac:(lia) Hfresh1 Hloop) as Hfresh2.
  destruct (beam_finalize_run self es2 fs2 ll2 w2) as (i & r & a & Hr & _ & _
                                                        & Hfin);
    [congruence|congruence| |].
  { intros ->. simpl in Hes2. nia. }
  apply list_elem_of_lookup_2 in Hr.
  destruct Hpop2 as [_ Hpop2].
  destruct (Hpop2 r Hr) as (suffix & Hsuffix & Hlen).
  exists r, suffix, w2. unfold _beam_search.
  erewrite bind_Return; [|exact Hinit]. cbv beta iota.
  erewrite bind_Return; [|exact Hbranch]. cbv beta iota.
  unfold num_iterations, py_div.
  destruct (Z.eqb_spec steps_per_iteration 0) as [|_]; [done|].
  erewrite bind_Return; [|reflexivity]. fold iterations.
  erewrite bind_Return; [|exact Hloop]. cbv beta iota.
  split; [done|]. split; [done|]. split; [lia|]. split.
  - by apply (proj1 (Forall_forall _ _) Hfresh2).
  - intros r0 Hr0. rewrite Hold2, Hold1 by lia. by apply Hold0.
Qed.

(** X11: with a batch size of 1, collaborators that keep their contract, a
    positive beam size and branch factor and a number of steps per iteration
    that is not 0, [_beam_search] returns the primer followed by as many
    events as the first branching and the iterations count together.  With
    a negative number of steps per iteration that is at most one event,
    whatever [num_steps] asks for; with a positive one and [num_steps ≤ 0]
    it is still at least one event. *)
Theorem beam_search_step_count self primer events num_steps temperature
    beam_size branch_factor steps_per_iteration w :
  batch_size (hparams (_config self)) = 1 →
  collaborators_ok self →
  heap w !! events = Some primer →
  1 ≤ beam_size → 1 ≤ branch_factor →
  steps_per_iteration ≠ 0%Z →
  ∃ r suffix w',
    _beam_search self events num_steps temperature beam_size branch_factor
                 steps_per_iteration w = Return r w' ∧
    heap w' !! r = Some (primer ++ suffix) ∧
    length suffix
    = Z.to_nat ((num_steps - 1) `mod` steps_per_iteration + 1)
      + Z.to_nat ((num_steps
                   - ((num_steps - 1) `mod` steps_per_iteration + 1))
                  `div` steps_per_iteration)
        * Z.to_nat steps_per_iteration ∧
    ((steps_per_iteration < 0)%Z → length suffix ≤ 1) ∧
    ((1 ≤ steps_per_iteration)%Z → (num_steps ≤ 0)%Z →
     1 ≤ length suffix ≤ Z.to_nat steps_per_iteration).
Proof.
  intros Hb Hok Hprimer Hbeam Hbf Hspi.
  destruct (beam_search_run_general self primer events num_steps temperature
              beam_size branch_factor steps_per_iteration w Hb Hok Hprimer
              Hbeam Hbf Hspi) as (r & suffix & w' & Hrun & Hr & Hlen & _).
  exists r, suffix, w'. split; [done|]. split; [done|]. split; [done|].
  split.
  - intros Hneg. rewrite Hlen.
    pose proof (Z.mod_neg_bound (num_steps - 1) steps_per_iteration Hneg).
    replace (Z.to_nat steps_per_iteration) with 0 by lia. lia.
  - intros Hpos Hn. rewrite Hlen.
    pose proof (Z.mod_pos_bound (num_steps - 1) steps_per_iteration
                  ltac:(lia)) as Hbound.
    set (first := ((num_steps - 1) `mod` steps_per_iteration + 1)%Z) in *.
    assert (((num_steps - first) `div` steps_per_iteration < 0)%Z) as Hneg
      by (apply Z.div_lt_upper_bound; lia).
    replace (Z.to_nat ((num_steps - first) `div` steps_per_iteration))
      with 0 by lia.
    lia.
Qed.

(** X12: for a model built by the constructor, collaborators that keep
    their contract, a primer that passes the validation and a beam size, a
    branch factor and a number of steps per iteration that are at least 1,
    the sequence that [_generate_events] returns is a new object, never the
    primer's, and every object that was in the store before the call, the
    primer included, holds what it held. *)
Theorem generate_events_fresh config num_steps primer_events primer
    temperature beam_size branch_factor steps_per_iteration w :
  collaborators_ok (__init__ config) →
  heap w !! primer_events = Some primer →
  1 ≤ length primer →
  (Z.of_nat (length primer) < num_steps)%Z →
  1 ≤ beam_size → 1 ≤ branch_factor → (1 ≤ steps_per_iteration)%Z →
  ∃ r w',
    _generate_events (__init__ config) num_steps primer_events temperature
                     beam_size branch_factor steps_per_iteration w
    = Return r w' ∧
    length (heap w) ≤ r ∧
    r ≠ primer_events ∧
    ∀ r0, r0 < length (heap w) → heap w' !! r0 = heap w !! r0.
Proof.
  intros Hok Hprimer Hlen Hlt Hbeam Hbf Hspi.
  destruct (beam_search_run_general (__init__ config) primer primer_events
              (num_steps - Z.of_nat (length primer)) temperature beam_size
              branch_factor steps_per_iteration w eq_refl Hok Hprimer Hbeam
              Hbf ltac:(lia))
    as (r & suffix & w' & Hrun & _ & _ & Hfresh & Hold).
  exists r, w'. split; [|split; [done|split; [|done]]].
  - unfold _generate_events. erewrite bind_Return; [|reflexivity].
    rewrite Hprimer. change (default [] (Some primer)) with primer.
    destruct (length primer =? 0) eqn:E0; [apply Nat.eqb_eq in E0; lia|].
    destruct (Z.leb_spec num_steps (Z.of_nat (length primer))); [lia|].
    destruct (Z.ltb_spec (Z.of_nat (length primer)) num_steps);
      [exact Hrun|lia].
  - apply lookup_lt_Some in Hprimer. lia.
Qed.

(** ** Degenerate parameters of the beam search *)

Lemma beam_copies_run events primer beam_size w :
  heap w !! events = Some primer →
  mapM (λ _ : nat, deepcopy events) (py_range 0 beam_size) w
  = Return (seq (length (heap w)) beam_size)
      (World (heap w ++ replicate beam_size primer) (sampler w)
             (session_log w)).
Proof.
  intros Hprimer.
  rewrite (deepcopy_all (λ _ : nat, events) (py_range 0 beam_size) w).
  - unfold py_range. rewrite Nat.sub_0_r, length_seq.
    rewrite (const_fmap _ _ primer), length_seq; [done|].
    intros ?. by rewrite Hprimer.
  - apply Forall_forall. intros _ _. by eapply lookup_lt_Some.
Qed.

Lemma prune_branches_nil self k w :
  _prune_branches self [] [] [] k w = Return ([], [], []) w.
Proof.
  unfold _prune_branches.
  erewrite bind_Return; [|by apply nlargest_run].
  simpl. by rewrite take_nil.
Qed.

Lemma beam_iterations_nil self n temperature beam_size branch_factor
    steps_per_iteration w :
  0 < batch_size (hparams (_config self)) →
  beam_iterations self n [] [] [] temperature beam_size branch_factor
                  steps_per_iteration w
  = Return ([], [], []) w.
Proof.
  intros Hb. induction n as [|n IH]; simpl; [done|].
  erewrite bind_Return; [|apply prune_branches_nil]. cbv beta iota.
  erewrite bind_Return; [|reflexivity].
  erewrite bind_Return; [|apply generate_branches_nil; [done|by right]].
  exact IH.
Qed.

Lemma generate_events_enters_beam_search self num_steps primer_events primer
    temperature beam_size branch_factor steps_per_iteration w :
  heap w !! primer_events = Some primer →
  1 ≤ length primer →
  (Z.of_nat (length primer) < num_steps)%Z →
  _generate_events self num_steps primer_events temperature beam_size
                   branch_factor steps_per_iteration w
  = _beam_search self primer_events (num_steps - Z.of_nat (length primer))
                 temperature beam_size branch_factor steps_per_iteration w.
Proof.
  intros Hprimer Hlen Hlt. unfold _generate_events.
  erewrite bind_Return; [|reflexivity].
  rewrite Hprimer. change (default [] (Some primer)) with primer.
  destruct (length primer =? 0) eqn:E0; [apply Nat.eqb_eq in E0; lia|].
  destruct (Z.leb_spec num_steps (Z.of_nat (length primer))); [lia|].
  by destruct (Z.ltb_spec (Z.of_nat (length primer)) num_steps); [|lia].
Qed.

(** X13: with a positive batch size and a number of steps per iteration that
    is not 0, whatever the collaborators, a beam size of 0 or a branch
    factor of 0 makes [_generate_events] on a valid primer end in
    [IndexError], not in the model's own exception: the beam is empty, and
    the log-likelihood of its first sequence is read for the log.  By then
    the primer is copied [beam_size] times and the session was asked for its
    initial state, and for nothing else. *)
Theorem generate_events_empty_beam self num_steps primer_events primer
    temperature beam_size branch_factor steps_per_iteration w :
  0 < batch_size (hparams (_config self)) →
  heap w !! primer_events = Some primer →
  1 ≤ length primer →
  (Z.of_nat (length primer) < num_steps)%Z →
  steps_per_iteration ≠ 0%Z →
  beam_size = 0 ∨ branch_factor = 0 →
  _generate_events self num_steps primer_events temperature beam_size
                   branch_factor steps_per_iteration w
  = Raise IndexError
      (World (heap w ++ replicate beam_size primer) (sampler w)
             (session_log w ++ [FetchInitialState])).
Proof.
  intros Hb Hprimer Hlen Hlt Hspi Hdeg.
  rewrite (generate_events_enters_beam_search _ _ _ primer) by done.
  unfold _beam_search, beam_init.
  erewrite bind_Return.
  2:{ erewrite bind_Return; [|by apply beam_copies_run].
      unfold first_iteration_num_steps, py_mod.
      destruct (Z.eqb_spec steps_per_iteration 0) as [|_]; [done|].
      erewrite bind_Return; [|reflexivity].
      erewrite bind_Return; [|apply get_inputs_batch_run].
      erewrite bind_Return; [|reflexivity]. reflexivity. }
  cbv beta iota.
  erewrite bind_Return.
  2:{ apply generate_branches_nil; [done|].
      destruct Hdeg as [-> | ->]; [right|by left]. done. }
  cbv beta iota. unfold num_iterations, py_div.
  destruct (Z.eqb_spec steps_per_iteration 0) as [|_]; [done|].
  erewrite bind_Return; [|reflexivity].
  erewrite bind_Return; [|by apply beam_iterations_nil]. cbv beta iota.
  unfold beam_finalize.
  erewrite bind_Return; [|apply prune_branches_nil]. done.
Qed.

(** X14: whatever the model and the collaborators, [_generate_events] on a
    valid primer with 0 steps per iteration ends in [ZeroDivisionError],
    raised where the number of steps of the first branching is computed.
    By then the primer is copied [beam_size] times; the session was not
    called. *)
Theorem generate_events_zero_steps_per_iteration self num_steps primer_events
    primer temperature beam_size branch_factor w :
  heap w !! primer_events = Some primer →
  1 ≤ length primer →
  (Z.of_nat (length primer) < num_steps)%Z →
  _generate_events self num_steps primer_events temperature beam_size
                   branch_factor 0 w
  = Raise ZeroDivisionError
      (World (heap w ++ replicate beam_size primer) (sampler w)
             (session_log w)).
Proof.
  intros Hprimer Hlen Hlt.
  rewrite (generate_events_enters_beam_search _ _ _ primer) by done.
  unfold _beam_search, beam_init.
  erewrite bind_Raise; [done|].
  erewrite bind_Return; [|by apply beam_copies_run].
  done.
Qed.

(** X15: [_generate_step_for_batch] ends in [AssertionError] exactly when
    the number of sequences is not the batch size, whatever the
    collaborators; the assertion is checked first, so the world is as it
    was: the session is not called and no sequence is extended. *)
Theorem generate_step_for_batch_assertion self event_sequences inputs
    initial_state temperature w w' :
  _generate_step_for_batch self event_sequences inputs initial_state
                           temperature w = Raise AssertionError w'
  ↔ length event_sequences ≠ batch_size (hparams (_config self)) ∧ w' = w.
Proof.
  split.
  - intros H.
    destruct (decide (length event_sequences
                      = batch_size (hparams (_config self)))) as [Heq|Hne].
    + by destruct (generate_step_for_batch_raises self event_sequences inputs
                     initial_state temperature Heq w _ _ H).
    + split; [done|]. unfold _generate_step_for_batch in H.
      apply Nat.eqb_neq in Hne. rewrite Hne in H.
      by injection H as <-.
  - intros [Hne ->]. unfold _generate_step_for_batch.
    apply Nat.eqb_neq in Hne. by rewrite Hne.
Qed.

End Theorems.

(** ** The padding branch on a concrete population *)

(** C2: with a batch size of 4 and one candidate, the padding branch copies
    the last sequence three times and then raises [TypeError] while it builds
    the padded state from [inputs[-1, :]]: the step function is not invoked
    (the log of session calls stays empty) and no result is returned. *)
Theorem generate_step_padding_type_error :
  _generate_step {| _config := mock_config 4 |} [0] [[tt]] [tt] 1%R mock_world
  = Raise TypeError (World [[7]; [7]; [7]; [7]] tt []).
Proof. reflexivity. Qed.

(** ** The small model keeps the collaborators' contract *)

Lemma mock_collaborators_ok config_batch :
  collaborators_ok (__init__ (mock_config config_batch)).
Proof.
  split; [reflexivity|]. intros inputs initial_state temperature. simpl.
  split; [done|]. split; [by rewrite length_fmap|].
  apply Forall_fmap, Forall_forall. intros x _. simpl.
  exists [(1/4)%R; (3/4)%R]. split; [done|]. intros g events. simpl. lia.
Defined.

(** ** Closed instances *)

Lemma generate_step_no_candidates_witness :
  0 < 4 ∧
  _generate_step {| _config := mock_config 4 |} [] [] [] 1%R mock_world
  = Return ([], []) mock_world.
Proof.
  split; [lia|].
  apply (generate_step_no_candidates {| _config := mock_config 4 |}).
  simpl. lia.
Defined.

Lemma generate_events_validation_witness :
  _generate_events (__init__ (mock_config 4)) 5%Z 0 1%R 2 2 1%Z
                   (World [[]] tt [])
  = Raise (EventSequenceRnnModelException empty_primer_msg) (World [[]] tt [])
  ∧
  _generate_events (__init__ (mock_config 4)) 1%Z 0 1%R 2 2 1%Z mock_world
  = Raise (EventSequenceRnnModelException primer_too_long_msg) mock_world.
Proof.
  split.
  - apply (generate_events_validation (__init__ (mock_config 4)) 5%Z 0 1%R
             2 2 1%Z (World [[]] tt [])). reflexivity.
  - apply (generate_events_validation (__init__ (mock_config 4)) 1%Z 0 1%R
             2 2 1%Z mock_world); simpl; lia.
Defined.

Lemma init_batch_size_excludes_padding_witness :
  batch_size (hparams (_config (__init__ (mock_config 4)))) = 1 ∧
  _generate_step (__init__ (mock_config 4)) [0] [[tt]] [tt] 1%R mock_world
  = Return ([tt], [(3/4)%R])
      (World [[7; 1]] tt [FetchStep [[tt]] [tt] (Some 1%R)]).
Proof.
  split; [apply (init_batch_size_excludes_padding (mock_config 4))|].
  destruct (init_batch_size_excludes_padding (mock_config 4)) as [_ H].
  destruct (H [0] [[tt]] [tt] 1%R mock_world) as (_ & _ & ->). reflexivity.
Defined.

Lemma prune_branches_top_k_witness :
  ∃ (indices : list nat) event_sequences' final_state' loglik',
    _prune_branches (__init__ (mock_config 4)) [0; 1; 2] [tt; tt; tt]
                    [(-1)%R; 0%R; (-1)%R] 2 mock_world
    = Return (event_sequences', final_state', loglik') mock_world ∧
    length indices = 2 ∧ NoDup indices.
Proof.
  destruct (prune_branches_top_k (__init__ (mock_config 4)) [0; 1; 2]
              [tt; tt; tt] [(-1)%R; 0%R; (-1)%R] 2 mock_world)
    as (indices & es' & fs' & ll' & Hrun & _ & _ & _ & Hlen & Hnd & _);
    [reflexivity..|].
  by exists indices, es', fs', ll'.
Defined.

Lemma prune_branches_sorted_witness :
  ∃ r, beam_finalize (__init__ (mock_config 4)) [0; 1; 2] [tt; tt; tt]
                     [(-1)%R; 0%R; (-1)%R] mock_world
       = Return r mock_world.
Proof.
  destruct (prune_branches_sorted (__init__ (mock_config 4)) [0; 1; 2]
              [tt; tt; tt] [(-1)%R; 0%R; (-1)%R] 2 mock_world)
    as (_ & _ & _ & _ & _ & _ & _ & _ & _ & _ & Hfin); [reflexivity..|].
  destruct Hfin as (_ & r & _ & _ & _ & _ & Hrun); [done|].
  by exists r.
Defined.

Lemma loglik_accumulation_witness :
  ∃ event_sequences' final_state' loglik' w',
    _generate_branches (__init__ (mock_config 4)) [0] [0%R] 2 2%Z [[tt]] [tt]
                       1%R mock_world
    = Return (event_sequences', final_state', loglik') w' ∧
    ∀ j a', loglik' !! j = Some a' →
      ∃ ps, a' = (0 + Rsum (ln <$> ps))%R ∧ length ps = 2.
Proof.
  destruct (generate_branches_one (__init__ (mock_config 4)) [7] 0 [0] [0%R]
              2 2%Z [[tt]] [tt] 1%R mock_world eq_refl
              (mock_collaborators_ok 4))
    as (es' & fs' & ll' & w' & Hrun & _); [|reflexivity..|].
  { split; [apply NoDup_singleton|].
    intros r ->%list_elem_of_singleton. by exists []. }
  exists es', fs', ll', w'. split; [done|].
  intros j a' Ha'.
  destruct (proj2 (loglik_accumulation (__init__ (mock_config 4)))
              [0] [0%R] 2 2%Z [[tt]] [tt] 1%R mock_world _ _ _ _
              eq_refl eq_refl Hrun)
    as (w0 & softmaxes & _ & _ & Hlen & Hacc).
  destruct (Hacc j a' Ha') as (a & ps & Ha & Hps & _ & Hsum & _).
  rewrite Nat.mod_1_r in Ha. injection Ha as <-.
  exists ps. split; [done|].
  by rewrite <-(Forall2_length _ _ _ Hps), Hlen.
Defined.

Lemma generate_events_length_witness :
  ∃ r result w',
    _generate_events (__init__ (mock_config 4)) 5%Z 0 1%R 2 2 1%Z mock_world
    = Return r w' ∧
    heap w' !! r = Some result ∧
    Z.of_nat (length result) = 5%Z ∧
    take 1 result = [7].
Proof.
  destruct (generate_events_length (mock_config 4) 5%Z 0 [7] 1%R 2 2 1%Z
              mock_world (mock_collaborators_ok 4))
    as (r & result & w' & Hrun & Hr & Hlen & Hprefix & _);
    [reflexivity|simpl; lia|simpl; lia|lia|lia|lia|].
  exists r, result, w'.
  split; [exact Hrun|]. split; [exact Hr|]. split; [exact Hlen|exact Hprefix].
Defined.

(** C1, as stated, fails: these requests pass the validation of the primer,
    with collaborators that keep their contract, and end in an exception
    instead of a sequence, because the beam size, the branch factor or the
    number of steps per iteration is 0. *)
Lemma generate_events_degenerate_parameters :
  collaborators_ok (__init__ (mock_config 4)) ∧
  heap mock_world !! 0 = Some [7] ∧
  (1 ≤ length [7] ∧ (Z.of_nat (length [7]) < 5)%Z) ∧
  (∃ w', _generate_events (__init__ (mock_config 4)) 5%Z 0 1%R 0 1 1%Z
                          mock_world = Raise IndexError w') ∧
  (∃ w', _generate_events (__init__ (mock_config 4)) 5%Z 0 1%R 1 0 1%Z
                          mock_world = Raise IndexError w') ∧
  (∃ w', _generate_events (__init__ (mock_config 4)) 5%Z 0 1%R 1 1 0%Z
                          mock_world = Raise ZeroDivisionError w').
Proof.
  split; [apply mock_collaborators_ok|]. split; [reflexivity|].
  split; [simpl; lia|].
  split; [|split]; eexists; vm_compute; reflexivity.
Qed.

Lemma beam_search_step_split_witness :
  ∃ first iterations,
    first_iteration_num_steps 10%Z 3%Z mock_world = Return first mock_world ∧
    num_iterations 10%Z first 3%Z mock_world = Return iterations mock_world ∧
    (first + iterations * 3 = 10)%Z.
Proof.
  destruct (beam_search_step_split (event := nat) (rng := unit)
              (RT := mock_runtime) 10%Z 3%Z) as [Harith _]; [lia|lia|].
  destruct (Harith mock_world)
    as (first & iterations & H1 & H2 & _ & _ & _ & _ & _ & Hsum & _).
  by exists first, iterations.
Defined.

Lemma population_sizes_witness :
  ∃ event_sequences' final_state' loglik',
    _prune_branches (__init__ (mock_config 4)) [0; 1; 2; 3; 4; 5]
                    [tt; tt; tt; tt; tt; tt]
                    [0%R; 0%R; 0%R; 0%R; 0%R; 0%R] 2 mock_world
    = Return (event_sequences', final_state', loglik') mock_world ∧
    length event_sequences' = 2 ∧
    length final_state' = 2 ∧
    length loglik' = 2.
Proof.
  destruct (population_sizes (__init__ (mock_config 4)) 2 3)
    as (_ & Hprune & _); [lia|lia|].
  apply (Hprune [0; 1; 2; 3; 4; 5] [tt; tt; tt; tt; tt; tt]
                [0%R; 0%R; 0%R; 0%R; 0%R; 0%R] mock_world); reflexivity.
Defined.

(** ** Closed instances of the further properties *)

(** The model with a graph for batches of two keeps the contract. *)
Lemma mock_pair_collaborators_ok :
  collaborators_ok (RT := mock_runtime_pair) {| _config := mock_config 2 |}.
Proof.
  split; [reflexivity|]. intros inputs initial_state temperature. simpl.
  split; [reflexivity|]. split; [by rewrite length_fmap|].
  apply Forall_fmap, Forall_forall. intros x _. simpl.
  exists [(1/4)%R; (3/4)%R]. split; [reflexivity|]. intros g events. simpl. lia.
Qed.

Lemma generate_step_exceptions_witness :
  batch_size (hparams (_config {| _config := mock_config 0 |})) = 0 ∧
  _generate_step {| _config := mock_config 0 |} [0] [[tt]] [tt] 1%R mock_world
  = Raise ZeroDivisionError mock_world.
Proof.
  split; [reflexivity|].
  exact (proj1 (generate_step_exceptions {| _config := mock_config 0 |} [0]
                  [[tt]] [tt] 1%R mock_world) eq_refl).
Defined.

Lemma generate_events_model_exception_witness :
  _generate_events (__init__ (mock_config 4)) 1%Z 0 1%R 2 2 1%Z mock_world
  = Raise (EventSequenceRnnModelException primer_too_long_msg) mock_world.
Proof.
  apply (proj2 (generate_events_model_exception (__init__ (mock_config 4))
                  1%Z 0 1%R 2 2 1%Z mock_world primer_too_long_msg
                  mock_world)).
  split; [reflexivity|]. right. simpl.
  split; [lia|]. split; [lia|reflexivity].
Defined.

Lemma generate_step_full_batches_witness :
  ∃ final_state softmax w',
    _generate_step (RT := mock_runtime_pair) {| _config := mock_config 2 |}
                   [0; 1; 2; 3] [[tt]; [tt]; [tt]; [tt]] [tt; tt; tt; tt] 1%R
                   mock_world_four
    = Return (final_state, softmax) w' ∧
    length final_state = 4 ∧
    length softmax = 4 ∧
    extended 1 [0; 1; 2; 3] (heap mock_world_four) (heap w') ∧
    length (session_log w') = 2.
Proof.
  destruct (generate_step_full_batches (RT := mock_runtime_pair)
              {| _config := mock_config 2 |} [0; 1; 2; 3]
              [[tt]; [tt]; [tt]; [tt]] [tt; tt; tt; tt] 1%R mock_world_four)
    as (softmax & w' & Hrun & Hlen & _ & Hext & Hlog);
    [simpl; lia|reflexivity|exact mock_pair_collaborators_ok|simpl; lia
    |simpl; lia|].
  eexists _, softmax, w'. split; [exact Hrun|].
  split; [reflexivity|]. split; [exact Hlen|]. split.
  - apply Hext. exact (NoDup_seq 0 4).
  - rewrite Hlog. reflexivity.
Defined.

Lemma generate_step_partial_batch_witness :
  ∃ w',
    _generate_step (RT := mock_runtime_pair) {| _config := mock_config 2 |}
                   [0; 1; 2] [[tt]; [tt]; [tt]] [tt; tt; tt] 1%R
                   mock_world_four
    = Raise TypeError w' ∧
    length (session_log w') = 1 ∧
    length (heap w') = 5.
Proof.
  destruct (generate_step_partial_batch (RT := mock_runtime_pair)
              {| _config := mock_config 2 |} [0; 1; 2]
              [[tt]; [tt]; [tt]] [tt; tt; tt] 1%R mock_world_four)
    as (w' & Hrun & Hlog & _ & Hheap);
    [simpl; lia|simpl; lia|exact mock_pair_collaborators_ok|simpl; lia
    |simpl; lia|].
  exists w'. split; [exact Hrun|]. split.
  - rewrite Hlog. reflexivity.
  - rewrite Hheap. reflexivity.
Defined.

Lemma generate_step_output_sizes_witness :
  _generate_step (__init__ (mock_config 4)) [0] [[tt]] [tt] 1%R mock_world
  = Return ([tt], [(3/4)%R])
      (World [[7; 1]] tt [FetchStep [[tt]] [tt] (Some 1%R)]) ∧
  length [tt] = length [0] ∧
  length [(3/4)%R] = length [0].
Proof.
  assert (_generate_step (__init__ (mock_config 4)) [0] [[tt]] [tt] 1%R
                         mock_world
          = Return ([tt], [(3/4)%R])
              (World [[7; 1]] tt [FetchStep [[tt]] [tt] (Some 1%R)])) as Hrun
    by reflexivity.
  split; [exact Hrun|].
  exact (generate_step_output_sizes _ _ _ _ _ _ _ _ _ Hrun).
Defined.

Lemma generate_branches_children_witness :
  ∃ final_state' loglik' w',
    _generate_branches (__init__ (mock_config 4)) [0] [0%R] 2 2%Z [[tt]] [tt]
                       1%R mock_world
    = Return ([1; 2], final_state', loglik') w' ∧
    length (heap w') = 3 ∧
    heap w' !! 0 = Some [7] ∧
    ∃ suffix, heap w' !! 1 = Some ([7] ++ suffix) ∧ length suffix = 2.
Proof.
  destruct (generate_branches_children (__init__ (mock_config 4)) [0] [0%R] 2
              2%Z [[tt]] [tt] 1%R mock_world eq_refl (mock_collaborators_ok 4))
    as (fs & ll & w' & Hrun & Hheap & Hold & Hchild);
    [repeat constructor|reflexivity..|].
  exists fs, ll, w'. split; [exact Hrun|]. split; [exact Hheap|]. split.
  - rewrite (Hold 0); [reflexivity|simpl; lia].
  - destruct (Hchild 0) as (r & s & suffix & Hr & Hs & Hc & Hl); [simpl; lia|].
    vm_compute in Hr. injection Hr as <-.
    vm_compute in Hs. injection Hs as <-.
    exists suffix. split; [exact Hc|exact Hl].
Defined.

Lemma generate_branches_no_branch_witness :
  0 < batch_size (hparams (_config (__init__ (mock_config 4)))) ∧
  _generate_branches (__init__ (mock_config 4)) [0] [0%R] 0 3%Z [[tt]] [tt]
                     1%R mock_world
  = Return ([], [], []) mock_world.
Proof.
  split; [simpl; lia|].
  apply (generate_branches_no_branch (__init__ (mock_config 4))).
  simpl; lia.
Defined.

Lemma generate_branches_no_step_witness :
  _generate_branches (__init__ (mock_config 4)) [0] [0%R] 2 (-2)%Z [[tt]]
                     [tt] 1%R mock_world
  = Return ([1; 2], [tt; tt], [0%R; 0%R]) (World [[7]; [7]; [7]] tt []).
Proof.
  apply (generate_branches_no_step (__init__ (mock_config 4)) [0] [0%R] 2
           (-2)%Z [[tt]] [tt] 1%R mock_world); [lia|].
  repeat constructor.
Defined.

Lemma prune_branches_edges_witness :
  _prune_branches (__init__ (mock_config 4)) [0; 1] [tt] [1%R] 1 mock_world
  = Raise IndexError mock_world ∧
  _prune_branches (__init__ (mock_config 4)) [0; 1] [tt] [1%R; 2%R] 2
                  mock_world
  = Raise IndexError mock_world.
Proof.
  split.
  - apply (proj1 (proj2 (prune_branches_edges (__init__ (mock_config 4))
                           [0; 1] [tt] [1%R] 1 mock_world))); simpl; lia.
  - apply (proj2 (proj2 (prune_branches_edges (__init__ (mock_config 4))
                           [0; 1] [tt] [1%R; 2%R] 2 mock_world)));
      simpl; lia.
Defined.

Lemma prune_branches_twice_witness :
  ∃ es1 fs1 ll1,
    _prune_branches (__init__ (mock_config 4)) [0; 1; 2] [tt; tt; tt]
                    [1%R; 3%R; 2%R] 2 mock_world
    = Return (es1, fs1, ll1) mock_world ∧
    _prune_branches (__init__ (mock_config 4)) es1 fs1 ll1 1 mock_world
    = Return (take 1 es1, take 1 fs1, take 1 ll1) mock_world ∧
    _prune_branches (__init__ (mock_config 4)) [0; 1; 2] [tt; tt; tt]
                    [1%R; 3%R; 2%R] 1 mock_world
    = Return (take 1 es1, take 1 fs1, take 1 ll1) mock_world ∧
    _prune_branches (__init__ (mock_config 4)) es1 fs1 ll1 2 mock_world
    = Return (es1, fs1, ll1) mock_world.
Proof.
  apply (prune_branches_twice (__init__ (mock_config 4)) [0; 1; 2]
           [tt; tt; tt] [1%R; 3%R; 2%R] 1 2 mock_world);
    [lia|reflexivity|reflexivity].
Defined.

Lemma beam_search_step_count_witness :
  ∃ r suffix w',
    _beam_search (__init__ (mock_config 4)) 0 3%Z 1%R 2 2 (-1)%Z mock_world
    = Return r w' ∧
    heap w' !! r = Some ([7] ++ suffix) ∧
    length suffix = 1.
Proof.
  destruct (beam_search_step_count (__init__ (mock_config 4)) [7] 0 3%Z 1%R
              2 2 (-1)%Z mock_world eq_refl (mock_collaborators_ok 4))
    as (r & suffix & w' & Hrun & Hr & Hlen & _);
    [reflexivity|lia|lia|lia|].
  exists r, suffix, w'. split; [exact Hrun|]. split; [exact Hr|].
  rewrite Hlen. reflexivity.
Defined.

Lemma generate_events_fresh_witness :
  ∃ r w',
    _generate_events (__init__ (mock_config 4)) 5%Z 0 1%R 2 2 1%Z mock_world
    = Return r w' ∧
    1 ≤ r ∧
    r ≠ 0 ∧
    heap w' !! 0 = Some [7].
Proof.
  destruct (generate_events_fresh (mock_config 4) 5%Z 0 [7] 1%R 2 2 1%Z
              mock_world (mock_collaborators_ok 4))
    as (r & w' & Hrun & Hfresh & Hne & Hold);
    [reflexivity|simpl; lia|simpl; lia|lia|lia|lia|].
  exists r, w'. split; [exact Hrun|]. split; [exact Hfresh|].
  split; [exact Hne|]. rewrite (Hold 0); [reflexivity|simpl; lia].
Defined.

Lemma generate_events_empty_beam_witness :
  _generate_events (__init__ (mock_config 4)) 5%Z 0 1%R 0 1 1%Z mock_world
  = Raise IndexError (World [[7]] tt [FetchInitialState]).
Proof.
  apply (generate_events_empty_beam (__init__ (mock_config 4)) 5%Z 0 [7] 1%R
           0 1 1%Z mock_world);
    [simpl; lia|reflexivity|simpl; lia|simpl; lia|lia|left; reflexivity].
Defined.

Lemma generate_events_zero_steps_per_iteration_witness :
  _generate_events (__init__ (mock_config 4)) 5%Z 0 1%R 2 2 0%Z mock_world
  = Raise ZeroDivisionError (World [[7]; [7]; [7]] tt []).
Proof.
  apply (generate_events_zero_steps_per_iteration (__init__ (mock_config 4))
           5%Z 0 [7] 1%R 2 2 mock_world);
    [reflexivity|simpl; lia|simpl; lia].
Defined.

Lemma generate_step_for_batch_assertion_witness :
  _generate_step_for_batch {| _config := mock_config 2 |} [0] [[tt]] [tt] 1%R
                           mock_world
  = Raise AssertionError mock_world.
Proof.
  apply (proj2 (generate_step_for_batch_assertion
                  {| _config := mock_config 2 |} [0] [[tt]] [tt] 1%R
                  mock_world mock_world)).
  split; [simpl; lia|reflexivity].
Defined.
